(** * Risk-factor section extraction (scraping/ExtractRiskFactors.py)

    A shallow embedding of the extraction core: the text normalizer
    [clean_text], the anchor-bounded extractor
    [extract_content_between_anchors], the two locators [extract_via_toc]
    and [extract_via_regex], and the per-record driver [process_filing].

    Python [str] values are sequences of Unicode code points; they are
    modelled as [list N].  The parsed document is an inductive tree of
    tags and strings; the BeautifulSoup operations the program calls
    ([find], [find_all], [find_next], [get_text], [.string], [.parent],
    [find_parent], [==] on tags) are modelled next to the program, each
    with the rule it follows.  [unicodedata.normalize("NFKC", _)] is a
    parameter of the development. *)

From Stdlib Require Import String Ascii NArith Lia.
From stdpp Require Import base option list countable gmap.

#[local] Set Warnings "-register-all".
Local Open Scope N_scope.
Local Open Scope list_scope.

(** ** Text *)

(** A Python [str]: a list of code points. *)
Abbreviation text := (list N).

(** A literal of the source, as code points. *)
Definition u (s : string) : text :=
  List.map N_of_ascii (list_ascii_of_string s).

(** [str.isspace] on one code point, which is also what [\s] matches in a
    [str] pattern and what [str.strip()] removes. *)
Definition isspace (c : N) : bool :=
  ((9 <=? c) && (c <=? 13)) || ((28 <=? c) && (c <=? 32))
  || (c =? 133) || (c =? 160) || (c =? 5760)
  || ((8192 <=? c) && (c <=? 8202))
  || (c =? 8232) || (c =? 8233) || (c =? 8239) || (c =? 8287)
  || (c =? 12288).

Definition SPACE : N := 32.

Fixpoint lstrip (s : text) : text :=
  match s with
  | [] => []
  | c :: r => if isspace c then lstrip r else s
  end.

Definition rstrip (s : text) : text := rev (lstrip (rev s)).

(** [s.strip()] *)
Definition strip (s : text) : text := rstrip (lstrip s).

(** [re.sub(r'\s+', ' ', s)]: every maximal run of whitespace becomes one
    space.  [in_run] tells that the previous character belonged to the run
    being replaced. *)
Fixpoint sub_ws_from (in_run : bool) (s : text) : text :=
  match s with
  | [] => []
  | c :: r =>
      if isspace c
      then (if in_run then sub_ws_from true r else SPACE :: sub_ws_from true r)
      else c :: sub_ws_from false r
  end.

Definition re_sub_ws (s : text) : text := sub_ws_from false s.

(** [" ".join(parts)] *)
Fixpoint join_space (parts : list text) : text :=
  match parts with
  | [] => []
  | [p] => p
  | p :: rest => p ++ SPACE :: join_space rest
  end.

(** ["".join(parts)] *)
Definition join_empty (parts : list text) : text := concat parts.

Fixpoint startswith (p s : text) : bool :=
  match p, s with
  | [], _ => true
  | a :: p', b :: s' => (a =? b) && startswith p' s'
  | _ :: _, [] => false
  end.

(** [needle in hay] *)
Fixpoint contains (needle hay : text) : bool :=
  startswith needle hay ||
  match hay with
  | [] => false
  | _ :: r => contains needle r
  end.

(** Truth value of an optional string: [None] and [""] are false. *)
Definition truthy (t : option text) : bool :=
  match t with
  | Some (_ :: _) => true
  | _ => false
  end.

Section Normalizer.
(** [unicodedata.normalize("NFKC", _)] *)
Variable nfkc : text → text.

Definition clean_text (t : text) : text :=
  let t := nfkc t in
  let t := strip (re_sub_ws t) in
  t.
End Normalizer.

(** ** Regular expressions

    The three patterns of the program use literals, [\s*], one optional
    literal and one character class; [pattern] has just these atoms.  All
    three are compiled with [re.IGNORECASE]. *)

Inductive atom :=
  | Lit (c : N)              (* a literal character *)
  | Opt (c : N)              (* [c?] *)
  | Class (p : N → bool)     (* [[...]] or [\s] *)
  | Star (p : N → bool).     (* a class followed by [*] *)

Abbreviation pattern := (list atom).

(** Case folding of [re.IGNORECASE] on [str] patterns: the ASCII letters,
    and the four further letters that match [i], [s] and [k]
    (U+0130, U+0131, U+017F, U+212A). *)
Definition casefold (c : N) : N :=
  if (65 <=? c) && (c <=? 90) then c + 32
  else if (c =? 304) || (c =? 305) then 105
  else if c =? 383 then 115
  else if c =? 8490 then 107
  else c.

Definition ci_eq (a b : N) : bool := casefold a =? casefold b.

(** Does [pat] match a prefix of [s]?  ([Pattern.match]) *)
Fixpoint re_match (pat : pattern) (s : text) {struct pat} : bool :=
  match pat with
  | [] => true
  | Lit c :: k =>
      match s with
      | x :: r => ci_eq c x && re_match k r
      | [] => false
      end
  | Opt c :: k =>
      match s with
      | x :: r => (ci_eq c x && re_match k r) || re_match k s
      | [] => re_match k s
      end
  | Class p :: k =>
      match s with
      | x :: r => p (casefold x) && re_match k r
      | [] => false
      end
  | Star p :: k =>
      (fix star (s : text) : bool :=
         match s with
         | x :: r => (p (casefold x) && star r) || re_match k s
         | [] => re_match k s
         end) s
  end.

(** Does [pat] match somewhere in [s]?  ([Pattern.search]) *)
Fixpoint re_search (pat : pattern) (s : text) : bool :=
  re_match pat s ||
  match s with
  | [] => false
  | _ :: r => re_search pat r
  end.

Definition lits (s : string) : pattern := List.map Lit (u s).

(** [re.compile(r"Item\s*1A\.?\s*Risk\s*Factors", re.IGNORECASE)] *)
Definition item_1a_pattern : pattern :=
  lits "Item" ++ [Star isspace] ++ lits "1A" ++ [Opt 46; Star isspace]
  ++ lits "Risk" ++ [Star isspace] ++ lits "Factors".

(** [re.compile(r"^Item\s*[2-6]\.?", re.IGNORECASE)], used with [match] *)
Definition stop_pattern : pattern :=
  lits "Item" ++ [Star isspace; Class (λ c, (50 <=? c) && (c <=? 54)); Opt 46].

(** ** The document tree *)

(** The classes of the strings of a parsed document.  [Plain] is
    [NavigableString] itself; [Comment] also stands for declarations,
    doctypes and processing instructions, which the operations below treat
    as they treat comments; the last five are the classes that the parser
    gives to the strings inside [style], [script], [template], [rt] and
    [rp]. *)
Inductive string_class :=
  | Plain | CData | Comment
  | Stylesheet | Script | TemplateString
  | RubyTextString | RubyParenthesisString.

#[global] Instance string_class_eq_dec : EqDecision string_class.
Proof. solve_decision. Defined.

(** A parsed document: tags with a name, an attribute dictionary and
    children, and strings, each of its class. *)
Inductive node :=
  | NavigableString (cls : string_class) (s : text)
  | Tag (name : text) (attrs : gmap (list N) (list N)) (contents : list node).

(** [tag.get(key)] *)
Definition get (n : node) (key : string) : option text :=
  match n with
  | Tag _ attrs _ => attrs !! u key
  | NavigableString _ _ => None
  end.

Definition is_tag (n : node) : bool :=
  match n with
  | Tag _ _ _ => true
  | NavigableString _ _ => false
  end.

(** [tag.descendants]: the nodes below [n] in document order (pre-order,
    tags and strings in one sequence). *)
Fixpoint descendants (n : node) : list node :=
  match n with
  | NavigableString _ _ => []
  | Tag _ _ cs =>
      (fix forest (cs : list node) : list node :=
         match cs with
         | [] => []
         | c :: r => c :: descendants c ++ forest r
         end) cs
  end.

(** The same over a list of siblings. *)
Fixpoint forest (cs : list node) : list node :=
  match cs with
  | [] => []
  | c :: r => c :: descendants c ++ forest r
  end.

(** [a == b] on page elements: bs4 compares tags by name, attributes and
    contents, recursively, and strings by their characters, whatever
    their class. *)
Fixpoint node_eqb (a b : node) : bool :=
  match a, b with
  | NavigableString _ s, NavigableString _ t => bool_decide (s = t)
  | Tag n1 a1 c1, Tag n2 a2 c2 =>
      bool_decide (n1 = n2) && bool_decide (a1 = a2) &&
      (fix all_eqb (xs ys : list node) : bool :=
         match xs, ys with
         | [], [] => true
         | x :: xs', y :: ys' => node_eqb x y && all_eqb xs' ys'
         | _, _ => false
         end) c1 c2
  | _, _ => false
  end.

(** The class that the parser gives to the strings inside a tag of this
    name, if it is a special one ([builder.string_containers]). *)
Definition string_container (name : text) : option string_class :=
  if bool_decide (name = u "style") then Some Stylesheet
  else if bool_decide (name = u "script") then Some Script
  else if bool_decide (name = u "template") then Some TemplateString
  else if bool_decide (name = u "rt") then Some RubyTextString
  else if bool_decide (name = u "rp") then Some RubyParenthesisString
  else None.

(** [tag.interesting_string_types]: the classes of strings that count as
    the text of a tag of this name: its own special class if it has one,
    and otherwise [NavigableString] and [CData]. *)
Definition interesting (name : text) (cls : string_class) : bool :=
  match string_container name with
  | Some c => bool_decide (cls = c)
  | None => bool_decide (cls = Plain) || bool_decide (cls = CData)
  end.

(** [element._all_strings()]: the strings among the descendants of a tag
    whose class is exactly one of its interesting ones; a string yields
    itself if it is plain or character data. *)
Definition all_strings (n : node) : list text :=
  match n with
  | Tag name _ _ =>
      omap (λ d, match d with
                 | NavigableString cls s =>
                     if interesting name cls then Some s else None
                 | Tag _ _ _ => None
                 end)
           (descendants n)
  | NavigableString cls s =>
      if bool_decide (cls = Plain) || bool_decide (cls = CData) then [s] else []
  end.

Definition nonempty (s : text) : bool :=
  match s with
  | [] => false
  | _ :: _ => true
  end.

(** [tag.get_text()] *)
Definition get_text (n : node) : text := join_empty (all_strings n).

(** [tag.get_text(strip=True)]: every one of these strings stripped, the
    empty ones dropped, joined without a separator. *)
Definition get_text_strip (n : node) : text :=
  join_empty (List.filter nonempty (List.map strip (all_strings n))).

(** [tag.string]: the single string below a chain of only children. *)
Fixpoint string_of (n : node) : option text :=
  match n with
  | NavigableString _ s => Some s
  | Tag _ _ [c] => string_of c
  | Tag _ _ _ => None
  end.

(** *** Positions in document order *)

(** A page element together with what follows it in document order
    ([.next_elements]). *)
Record position := Position { here : node; next_elements : list node }.

(** A page element together with its chain of parents. *)
Inductive PageElement :=
  | Element (at_pos : position) (parent : option PageElement).

Definition pos_of (e : PageElement) : position :=
  match e with Element p _ => p end.

Definition parent_of (e : PageElement) : option PageElement :=
  match e with Element _ p => p end.

(** The positions of a sequence of nodes that is followed by nothing. *)
Fixpoint positions (l : list node) : list position :=
  match l with
  | [] => []
  | n :: r => Position n r :: positions r
  end.

(** The soup object itself, as a position: the parser links the
    elements it builds to one another and leaves [next_element] of the
    soup object unset, so nothing follows it. *)
Definition soup_position (soup : node) : position :=
  Position soup [].

(** [n] and its descendants in document order, each with its parents;
    [after] is what follows the subtree of [n] in the document. *)
Fixpoint elements_from (n : node) (after : list node)
    (par : option PageElement) : list PageElement :=
  let self := Element (Position n (descendants n ++ after)) par in
  self ::
  match n with
  | NavigableString _ _ => []
  | Tag _ _ cs =>
      (fix children (cs : list node) : list PageElement :=
         match cs with
         | [] => []
         | c :: r =>
             elements_from c (forest r ++ after) (Some self) ++ children r
         end) cs
  end.

(** The elements below a tag [self] with contents [cs], as
    [elements_from] lists them. *)
Fixpoint children_from (self : option PageElement) (cs after : list node)
    : list PageElement :=
  match cs with
  | [] => []
  | c :: r =>
      elements_from c (forest r ++ after) self ++ children_from self r after
  end.

(** The descendants of the soup object, with their parents; the parent of
    the top-level ones is the soup object. *)
Definition soup_elements (soup : node) : list PageElement :=
  match soup with
  | Tag _ _ cs => children_from (Some (Element (soup_position soup) None)) cs []
  | NavigableString _ _ => []
  end.

(** *** Searching *)

(** How bs4 matches the value of an attribute against a string: the
    attribute has to be there and to be that string. *)
Definition attr_matches (value : option text) (against : text) : bool :=
  match value with
  | None => false
  | Some v => bool_decide (v = against)
  end.

(** [pos.find_all_next(filter)] for a filter on tags: the tags after [pos]
    that pass, in document order. *)
Definition find_all_next (keep : node → bool) (pos : position) : list position :=
  List.filter (λ p, is_tag (here p) && keep (here p))
              (positions (next_elements pos)).

(** [pos.find_next()]: a search without a name, attributes or a string
    filter accepts every tag and no string (bs4 matches a string against
    the [string] filter, and against no filter the match fails), so this
    is the next tag in document order. *)
Definition find_next (pos : position) : option position :=
  head (find_all_next (λ _, true) pos).

(** [soup.find_all(...)] and [soup.find(...)] for a filter on tags: the
    search runs over [soup.descendants]. *)
Definition find_all (keep : node → bool) (soup : node) : list position :=
  List.filter (λ p, is_tag (here p) && keep (here p))
              (positions (descendants soup)).

Definition find (keep : node → bool) (soup : node) : option position :=
  head (find_all keep soup).

(** [soup.find(id=the_id)] *)
Definition find_id (the_id : text) (soup : node) : option position :=
  find (λ n, attr_matches (get n "id") the_id) soup.

Definition has_name (name : string) (n : node) : bool :=
  match n with
  | Tag nm _ _ => bool_decide (nm = u name)
  | NavigableString _ _ => false
  end.

(** [soup.find('a', string=f)] with [f] applied to [tag.string] *)
Definition find_a_string (f : option text → bool) (soup : node) : option position :=
  find (λ n, has_name "a" n && f (string_of n)) soup.

(** [lambda t: t and "Risk Factors" in t] *)
Definition risk_factors_in (t : option text) : bool :=
  match t with
  | Some s => nonempty s && contains (u "Risk Factors") s
  | None => false
  end.

(** A compiled pattern as a [string=] filter: [None] never matches. *)
Definition searches (pat : pattern) (t : option text) : bool :=
  match t with
  | Some s => re_search pat s
  | None => false
  end.

(** [soup.find_all('a', href=True)] *)
Definition find_all_a_href (soup : node) : list position :=
  find_all (λ n, has_name "a" n && bool_decide (is_Some (get n "href"))) soup.

(** [soup.find_all(string=pat)]: the non-empty strings of the document that
    [pat] matches somewhere, each with its parents. *)
Definition find_all_string (pat : pattern) (soup : node) : list PageElement :=
  List.filter
    (λ e, match here (pos_of e) with
          | NavigableString _ s => nonempty s && re_search pat s
          | Tag _ _ _ => false
          end)
    (soup_elements soup).

(** [e.find_parent('a')] is found: some proper ancestor of [e] is an [a]. *)
Fixpoint has_parent_a (e : PageElement) : bool :=
  match e with
  | Element _ (Some p) => has_name "a" (here (pos_of p)) || has_parent_a p
  | Element _ None => false
  end.

(** ** The program *)

Definition max_elements : nat := 5000.

(** What one step of the walk appends for [curr]: the text of a tag, or
    the stripped characters of a string. *)
Definition step_text (curr : node) : list text :=
  match curr with
  | Tag name _ _ =>
      if nonempty name
      then (let text := get_text_strip curr in
            if nonempty text then [text] else [])
      else []
  | NavigableString _ s =>
      let text := strip s in
      if nonempty text then [text] else []
  end.

(** [end_id and curr.get('id') == end_id] *)
Definition hits_end (end_id : option text) (curr : node) : bool :=
  truthy end_id && bool_decide (get curr "id" = end_id).

(** The [while curr and count < max_elements] loop; [budget] is
    [max_elements - count].  Next to [content] it returns the nodes the
    body ran on, the one it broke at included. *)
Fixpoint between_loop (budget : nat) (end_id : option text)
    (curr : option position) (content : list text) (seen : list node)
    : list text * list node :=
  match budget, curr with
  | S budget', Some c =>
      if hits_end end_id (here c) then (content, seen ++ [here c])
      else between_loop budget' end_id (find_next c)
             (content ++ step_text (here c)) (seen ++ [here c])
  | _, _ => (content, seen)
  end.

Definition extract_content_between_anchors (soup : node) (start_id : text)
    (end_id : option text) : option text :=
  match find_id start_id soup with
  | None => None
  | Some start_elem =>
      let curr := find_next start_elem in
      let '(content, _) := between_loop max_elements end_id curr [] [] in
      Some (join_space content)
  end.

(** The nodes the loop of [extract_content_between_anchors] runs on. *)
Definition between_visited (soup : node) (start_id : text)
    (end_id : option text) : list node :=
  match find_id start_id soup with
  | None => []
  | Some start_elem =>
      snd (between_loop max_elements end_id (find_next start_elem) [] [])
  end.

(** Step 1 of [extract_via_toc]: the link. *)
Definition toc_link (soup : node) : option position :=
  match find_a_string risk_factors_in soup with
  | Some link => Some link
  | None => find_a_string (searches item_1a_pattern) soup
  end.

(** [href and href.startswith('#')], giving [href[1:]] *)
Definition internal_target (href : option text) : option text :=
  match href with
  | Some (35 :: target) => Some target
  | _ => None
  end.

(** The inner [for j in range(i + 1, len(toc_links))] loop. *)
Fixpoint next_distinct_target (start_id : text) (links : list position)
    : option text :=
  match links with
  | [] => None
  | next_l :: rest =>
      match internal_target (get (here next_l) "href") with
      | Some candidate_id =>
          if bool_decide (candidate_id = start_id)
          then next_distinct_target start_id rest
          else Some candidate_id
      | None => next_distinct_target start_id rest
      end
  end.

(** The outer [for i, l in enumerate(toc_links)] loop. *)
Fixpoint toc_end_id (link : node) (start_id : text) (toc_links : list position)
    : option text :=
  match toc_links with
  | [] => None
  | l :: rest =>
      if node_eqb (here l) link
      then next_distinct_target start_id rest
      else toc_end_id link start_id rest
  end.

(** [str(end_id)] inside the f-string *)
Definition show_id (end_id : option text) : text :=
  match end_id with
  | Some i => i
  | None => u "None"
  end.

Definition toc_label (end_id : option text) : text :=
  u "TOC extraction (End anchor: " ++ show_id end_id ++ u ")".

Definition extract_via_toc (soup : node) : option text * text :=
  match toc_link soup with
  | None => (None, u "No TOC link found")
  | Some link =>
      match internal_target (get (here link) "href") with
      | None => (None, u "TOC link has no internal href")
      | Some start_id =>
          let toc_links := find_all_a_href soup in
          let end_id := toc_end_id (here link) start_id toc_links in
          let extracted_text :=
            extract_content_between_anchors soup start_id end_id in
          (extracted_text, toc_label end_id)
      end
  end.

Definition regex_limit : nat := 3000.

(** The [while curr and count < 3000] loop of [extract_via_regex];
    [budget] is [3000 - count].  Next to [content] it returns the nodes the
    body ran on, the one it broke at included. *)
Fixpoint regex_loop (budget : nat) (curr : option position)
    (content : list text) (seen : list node) : list text * list node :=
  match budget, curr with
  | S budget', Some c =>
      let text := get_text_strip (here c) in
      if re_match stop_pattern text && (length text <? 100)%nat
      then (content, seen ++ [here c])
      else regex_loop budget' (find_next c)
             (content ++ (if nonempty text then [text] else []))
             (seen ++ [here c])
  | _, _ => (content, seen)
  end.

(** A filing record: one row of the input index. *)
Record row := Row {
  accessionNumber : text;
  ticker : text;
  saved_path : option text
}.

Definition OUTPUT_DIR : text := u "sec_10q/risk_factors".

Definition SENTINEL : text := u "SECTION_NOT_FOUND_OR_REFERENCE_ONLY".

(** [OUTPUT_DIR / f"{accession}.txt"], for an accession that is a plain
    file name. *)
Definition out_file (accession : text) : text :=
  OUTPUT_DIR ++ u "/" ++ accession ++ u ".txt".

Section Program.
(** [unicodedata.normalize("NFKC", _)] *)
Variable nfkc : text → text.

(** Opening the file and building the tree
    ([bs4.BeautifulSoup(f, 'html.parser')]): the tree, or the message of
    the exception raised. *)
Variable read_html : text → text + node.

(** The [for m in matches] loop of [extract_via_regex]. *)
Fixpoint pick_candidate (matches : list PageElement) : option PageElement :=
  match matches with
  | [] => None
  | Element _ None :: rest => pick_candidate rest
  | Element _ (Some parent) :: rest =>
      if has_name "a" (here (pos_of parent)) || has_parent_a parent
      then pick_candidate rest
      else
        let t := clean_text nfkc (get_text (here (pos_of parent))) in
        if (length t <? 100)%nat then Some parent
        else pick_candidate rest
  end.

Definition regex_candidate (soup : node) : option PageElement :=
  pick_candidate (find_all_string item_1a_pattern soup).

Definition extract_via_regex (soup : node) : option text * text :=
  match regex_candidate soup with
  | None => (None, u "Regex: Header not found")
  | Some candidate =>
      let curr := find_next (pos_of candidate) in
      let '(content, _) := regex_loop regex_limit curr [] [] in
      (Some (join_space content), u "Regex extraction")
  end.

(** The nodes the loop of [extract_via_regex] runs on. *)
Definition regex_visited (soup : node) : list node :=
  match regex_candidate soup with
  | None => []
  | Some candidate =>
      snd (regex_loop regex_limit (find_next (pos_of candidate)) [] [])
  end.

(** Steps 3 and 4 of [process_filing]: the TOC strategy, then the regex
    fallback [if not text]. *)
Definition locate (soup : node) : option text * text :=
  let '(text, method) := extract_via_toc soup in
  if truthy text then (text, method) else extract_via_regex soup.

(** [process_filing(row)] over a file system that maps a path to the
    content of the file there; it returns the status line and the file
    system it leaves.  This is the call when it returns: [write_fails]
    below tells when it raises instead.  The status line shows the path as
    [str(Path(_))] gives it for a path in normal form. *)
Definition process_filing (r : row) (fs : gmap (list N) (list N))
    : text * gmap (list N) (list N) :=
  let accession := accessionNumber r in
  match saved_path r with
  | None | Some [] => (u "Skipped (No path)", fs)
  | Some rel_path =>
      match fs !! rel_path with
      | None => (u "Skipped (File not found: " ++ rel_path ++ u ")", fs)
      | Some data =>
          match read_html data with
          | inl e => (u "Error reading HTML: " ++ e, fs)
          | inr soup =>
              let '(text, method) := locate soup in
              let '(text, status) :=
                match text with
                | Some (c :: t) => (c :: t, u "Extracted")
                | _ => (SENTINEL, u "Not Found")
                end in
              (status ++ u " (" ++ method ++ u ")",
               <[out_file accession := clean_text nfkc text]> fs)
          end
      end
  end.
End Program.

(** ** The batch ([main]) *)

Definition INPUT_CSV : text := u "sec_10q/announcements_with_prices.csv".

(** [stats = {"Extracted": 0, "Not Found": 0, "Skipped": 0, "Error": 0}] *)
Definition initial_stats : gmap (list N) nat :=
  {[ u "Extracted" := 0%nat; u "Not Found" := 0%nat;
     u "Skipped" := 0%nat; u "Error" := 0%nat ]}.

(** [stats[key] += 1], for a key that the dictionary has. *)
Definition bump (key : string) (stats : gmap (list N) nat) : gmap (list N) nat :=
  alter S (u key) stats.

(** The [if "Extracted" in res: ... elif ...] chain of [main]. *)
Definition tally (res : text) (stats : gmap (list N) nat) : gmap (list N) nat :=
  if contains (u "Extracted") res then bump "Extracted" stats
  else if contains (u "Not Found") res then bump "Not Found" stats
  else if contains (u "Skipped") res then bump "Skipped" stats
  else if contains (u "Error") res then bump "Error" stats
  else stats.

(** How a run of [main] ends. *)
Inductive outcome :=
  | IndexMissing                              (* the index file is not there *)
  | WriteError                                (* an output file could not be written *)
  | Summary (stats : gmap (list N) nat).      (* the summary is printed *)

Section Batch.
(** [unicodedata.normalize("NFKC", _)] *)
Variable nfkc : text → text.

(** Opening a filing and building its tree. *)
Variable read_html : text → text + node.

(** [list(csv.DictReader(f))]: the rows of the index file. *)
Variable DictReader : text → list row.

(** Whether [open(path, 'w')] succeeds. *)
Variable writable : text → bool.

(** [process_filing(row)] raises instead of returning: the tree of the
    record is built and its output file cannot be opened for writing.  The
    write is under no [try]. *)
Definition write_fails (r : row) (fs : gmap (list N) (list N)) : bool :=
  match saved_path r with
  | None | Some [] => false
  | Some rel_path =>
      match fs !! rel_path with
      | None => false
      | Some data =>
          match read_html data with
          | inl _ => false
          | inr _ => negb (writable (out_file (accessionNumber r)))
          end
      end
  end.

(** The [for row in tqdm(rows)] loop of [main]: the summary, unless a
    call of [process_filing] raised, and the file system it leaves. *)
Fixpoint process_rows (rows : list row) (stats : gmap (list N) nat)
    (fs : gmap (list N) (list N))
    : option (gmap (list N) nat) * gmap (list N) (list N) :=
  match rows with
  | [] => (Some stats, fs)
  | r :: rest =>
      if write_fails r fs then (None, fs)
      else
        let '(res, fs) := process_filing nfkc read_html r fs in
        process_rows rest (tally res stats) fs
  end.

(** [main()]: how it ends, and the file system it leaves. *)
Definition main (fs : gmap (list N) (list N))
    : outcome * gmap (list N) (list N) :=
  match fs !! INPUT_CSV with
  | None => (IndexMissing, fs)
  | Some data =>
      let rows := DictReader data in
      match process_rows rows initial_stats fs with
      | (Some stats, fs) => (Summary stats, fs)
      | (None, fs) => (WriteError, fs)
      end
  end.
End Batch.

(** ** Reference descriptions

    What the walks and the searches compute, written over the document
    order instead of as loops; the properties below relate the program to
    them. *)

(** The tags after [pos] in document order. *)
Definition tags_after (pos : position) : list node :=
  List.map here (find_all_next (λ _, true) pos).

(** The nodes of [l] before the first one that satisfies [stop]. *)
Fixpoint before_stop (stop : node → bool) (l : list node) : list node :=
  match l with
  | [] => []
  | n :: r => if stop n then [] else n :: before_stop stop r
  end.

(** The same, the stopping node included. *)
Fixpoint up_to_stop (stop : node → bool) (l : list node) : list node :=
  match l with
  | [] => []
  | n :: r => if stop n then [n] else n :: up_to_stop stop r
  end.

(** The break test and the step of the loop of [extract_via_regex]. *)
Definition regex_stop (n : node) : bool :=
  let text := get_text_strip n in
  re_match stop_pattern text && (length text <? 100)%nat.

Definition regex_step (n : node) : list text :=
  let text := get_text_strip n in
  if nonempty text then [text] else [].

(** A tag that [soup.find(id=the_id)] accepts. *)
Definition carries_id (the_id : text) (n : node) : bool :=
  is_tag n && attr_matches (get n "id") the_id.

(** The target of [n] if [n] is a link with an internal href to another
    id than [start_id]. *)
Definition end_candidate (start_id : text) (n : node) : option text :=
  if has_name "a" n
  then match internal_target (get n "href") with
       | Some target =>
           if bool_decide (target = start_id) then None else Some target
       | None => None
       end
  else None.

(** The target of the first such link in a stretch of the document. *)
Definition first_distinct_internal (start_id : text) (l : list node)
    : option text :=
  head (omap (end_candidate start_id) l).

(** A link that step 1 of [extract_via_toc] accepts. *)
Definition toc_match (n : node) : bool :=
  has_name "a" n &&
  (risk_factors_in (string_of n) || searches item_1a_pattern (string_of n)).

Section Accepts.
Variable nfkc : text → text.

(** The enclosing node of a match that [extract_via_regex] accepts:
    neither a link nor inside one, and with a short normalized text. *)
Definition accepts (parent : PageElement) : bool :=
  negb (has_name "a" (here (pos_of parent)) || has_parent_a parent)
  && (length (clean_text nfkc (get_text (here (pos_of parent)))) <? 100)%nat.
End Accepts.


(** Some character of [s] is not whitespace. *)
Definition has_nonspace (s : text) : bool :=
  existsb (λ c, negb (isspace c)) s.

(** [single_spaced b s]: whitespace occurs in [s] only as single spaces,
    and not at the start when [b] is set. *)
Fixpoint single_spaced (after_ws : bool) (s : text) : bool :=
  match s with
  | [] => true
  | c :: r =>
      if isspace c
      then negb after_ws && (c =? SPACE) && single_spaced true r
      else single_spaced false r
  end.

(** The filter of [soup.find_all('a', href=True)]. *)
Definition is_a_href (n : node) : bool :=
  is_tag n && (has_name "a" n && bool_decide (is_Some (get n "href"))).

(** The parent recorded for [e] is a tag that has [e] among its contents. *)
Definition child_of (e : PageElement) : Prop :=
  match parent_of e with
  | Some p =>
      match here (pos_of p) with
      | Tag _ _ cs => here (pos_of e) ∈ cs
      | NavigableString _ _ => False
      end
  | None => False
  end.

(** The filter of [soup.find_all(string=pat)] on a node. *)
Definition pattern_matches (pat : pattern) (n : node) : bool :=
  match n with
  | NavigableString _ s => nonempty s && re_search pat s
  | Tag _ _ _ => false
  end.

(** A string of the document that [pat] matches somewhere. *)
Definition matched_string (pat : pattern) (e : PageElement) : Prop :=
  ∃ cls s, here (pos_of e) = NavigableString cls s ∧ s ≠ []
           ∧ re_search pat s = true.



(** No string of the document mentions the section: none contains
    [Risk Factors] and none is matched by the item-label pattern. *)
Definition no_mention (soup : node) : Prop :=
  ∀ cls s, NavigableString cls s ∈ descendants soup →
       contains (u "Risk Factors") s = false
       ∧ re_search item_1a_pattern s = false.

(** The characters of [s] that are not whitespace. *)
Definition nonspace_chars (s : text) : text :=
  List.filter (λ c, negb (isspace c)) s.

(** A text that is not empty and has no whitespace at either end. *)
Definition trimmed (s : text) : Prop :=
  s ≠ [] ∧ lstrip s = s ∧ rstrip s = s.


(** No character of [post] occurs in [needle]. *)
Definition foreign_to (needle post : text) : bool :=
  forallb (λ c, forallb (λ x, negb (x =? c)) needle) post.

(** A normalizer to run the program with: NFKC on text in which the only
    characters that have a decomposition are the compatibility spaces
    (U+00A0, U+2000..U+200A, U+202F, U+205F, U+3000), which become
    U+0020. *)
Definition nfkc_spaces (t : text) : text :=
  List.map (λ c, if (c =? 160) || ((8192 <=? c) && (c <=? 8202))
                    || (c =? 8239) || (c =? 8287) || (c =? 12288)
                 then SPACE else c) t.

(** ** Documents and records to run the program on *)

(** Building documents. *)
Definition attr (key value : string) : list N * list N := (u key, u value).

Definition el (name : string) (attrs : list (list N * list N))
    (contents : list node) : node :=
  Tag (u name) (list_to_map attrs) contents.

Definition tx (s : string) : node := NavigableString Plain (u s).

(** The [script] element with this code. *)
Definition script (code : string) : node :=
  el "script" [] [NavigableString Script (u code)].

Definition BeautifulSoup (contents : list node) : node :=
  el "[document]" [] contents.

(** A document without an end anchor and with more tags than either
    ceiling: a start anchor, a header, and 5001 paragraphs. *)
Definition adversarial : node :=
  BeautifulSoup (el "a" [attr "id" "s"] []
                 :: el "p" [] [tx "Item 1A. Risk Factors"]
                 :: repeat (el "p" [] [tx "x"]) (S max_elements)).

(** A table of contents whose page-number link repeats the start id. *)
Definition toc_document : node :=
  BeautifulSoup
    [el "a" [attr "href" "#rf"] [tx "Item 1A. Risk Factors"];
     el "a" [attr "href" "#rf"] [tx "12"];
     el "a" [attr "href" "http://sec.gov"] [tx "EDGAR"];
     el "a" [attr "href" "#unregisteredsales"] [tx "Item 2."];
     el "a" [attr "id" "rf"] [];
     el "p" [] [tx "Our business faces risks including X, Y, Z."];
     el "a" [attr "id" "unregisteredsales"] [];
     el "p" [] [tx "None."]].

(** A link whose text is split by markup. *)
Definition nested_link_document : node :=
  BeautifulSoup
    [el "a" [attr "href" "#rf"] [el "b" [] [tx "Item 1A."]; tx " Risk Factors"];
     el "a" [attr "id" "rf"] [];
     el "p" [] [tx "Risks."]].

(** The header once inside a TOC link and once on its own. *)
Definition two_header_document : node :=
  BeautifulSoup
    [el "div" [] [el "a" [attr "href" "#rf"] [tx "Item 1A. Risk Factors"]];
     el "a" [attr "id" "rf"] [];
     el "p" [] [el "b" [] [tx "ITEM 1A.  RISK FACTORS"]];
     el "p" [] [tx "Our business faces risks."];
     el "p" [] [tx "Item 2. Unregistered Sales"];
     el "p" [] [tx "None."]].

(** The filing record and the file system of the end-to-end scenario. *)
Definition aapl_row : row :=
  Row (u "0000320193-22-000007") (u "AAPL") (Some (u "fixtures/aapl_10q.htm")).

Definition aapl_fs : gmap (list N) (list N) :=
  {[ u "fixtures/aapl_10q.htm" := u "<html>" ]}.



(** A TOC link to an id that no element carries. *)
Definition dangling_toc_document : node :=
  BeautifulSoup
    [el "a" [attr "href" "#rf"] [tx "Risk Factors"];
     el "a" [attr "href" "#other"] [tx "Item 2"];
     el "p" [] [tx "Item 1A. Risk Factors"];
     el "p" [] [tx "Our business faces risks."]].

(** An index of three records: one whose file is there, one without a
    path, and one whose file is missing. *)
Definition three_rows : list row :=
  [aapl_row;
   Row (u "0000000000-00-000001") (u "NOPATH") None;
   Row (u "0000000000-00-000002") (u "GONE") (Some (u "Extracted/gone.htm"))].

Definition batch_fs : gmap (list N) (list N) :=
  <[INPUT_CSV := u "accessionNumber,ticker,saved_path"]> aapl_fs.

(** A section with a script between its paragraphs. *)
Definition script_document : node :=
  BeautifulSoup
    [el "a" [attr "id" "s"] [];
     el "div" [] [el "p" [] [tx "t"]; script "var x=1;"; el "p" [] [tx "t"]]].

(** A table of contents whose second link is [href="#"]. *)
Definition hash_link_document : node :=
  BeautifulSoup
    [el "a" [attr "href" "#rf"] [tx "Risk Factors"];
     el "a" [attr "href" "#"] [tx "Top"];
     el "a" [attr "id" "rf"] [];
     el "p" [] [tx "Our business faces risks."];
     el "p" [attr "id" ""] [tx "Item 2."]].

(** A document whose only link is [href="#"], with elements without an
    [id]. *)
Definition hash_only_document : node :=
  BeautifulSoup
    [el "a" [attr "href" "#"] [tx "Risk Factors"];
     el "p" [] [tx "Item 1A. Risk Factors"];
     el "p" [] [tx "Our business faces risks."]].

(** The header as a string directly below the document. *)
Definition root_string_document : node :=
  BeautifulSoup [tx "Item 1A. Risk Factors"; el "p" [] [tx "intro body"]].

(** A document that does not mention the section. *)
Definition unrelated_document : node :=
  BeautifulSoup
    [el "p" [] [tx "Item 1. Financial Statements"];
     el "a" [attr "href" "#notes"] [tx "Notes"];
     el "p" [] [tx "Nothing to report."]].

(** * Properties *)

(** ** The normalizer *)

Lemma lstrip_suffix s : ∃ pre, s = pre ++ lstrip s.
Proof.
  induction s as [|c r [pre IH]]; [by exists []|].
  simpl. destruct (isspace c).
  - exists (c :: pre). by rewrite IH at 1.
  - by exists [].
Qed.

Lemma rstrip_prefix s : ∃ post, s = rstrip s ++ post.
Proof.
  unfold rstrip. destruct (lstrip_suffix (rev s)) as [pre H].
  exists (rev pre). rewrite <- rev_app_distr, <- H. by rewrite rev_involutive.
Qed.

Lemma lstrip_idem s : lstrip (lstrip s) = lstrip s.
Proof.
  induction s as [|c r IH]; [done|].
  simpl. destruct (isspace c) eqn:E; [done|]. simpl. by rewrite E.
Qed.

Lemma rstrip_idem s : rstrip (rstrip s) = rstrip s.
Proof. unfold rstrip. by rewrite rev_involutive, lstrip_idem. Qed.

Lemma lstrip_length s : (length (lstrip s) ≤ length s)%nat.
Proof.
  induction s as [|c r IH]; [done|].
  simpl. destruct (isspace c); simpl; lia.
Qed.

(** A string that [lstrip] leaves alone is empty or starts with a
    character that is not whitespace. *)
Lemma lstrip_fixed_head s :
  lstrip s = s → s = [] ∨ ∃ c r, s = c :: r ∧ isspace c = false.
Proof.
  destruct s as [|c r]; [by left|]. simpl.
  destruct (isspace c) eqn:E; [|right; eauto].
  intros H. pose proof (lstrip_length r) as L. rewrite H in L. simpl in L. lia.
Qed.

Lemma lstrip_rstrip_fixed t : lstrip t = t → lstrip (rstrip t) = rstrip t.
Proof.
  intros H. destruct (lstrip_fixed_head t H) as [->|(c & r & -> & E)]; [done|].
  destruct (rstrip_prefix (c :: r)) as [post Hp].
  destruct (rstrip (c :: r)) as [|c' r']; [done|].
  simpl in Hp. injection Hp as -> _. simpl. by rewrite E.
Qed.

Lemma strip_idem s : strip (strip s) = strip s.
Proof.
  unfold strip.
  rewrite (lstrip_rstrip_fixed (lstrip s)) by apply lstrip_idem.
  apply rstrip_idem.
Qed.

Lemma single_spaced_weaken b s : single_spaced true s = true → single_spaced b s = true.
Proof. destruct b; [done|]. destruct s as [|c r]; [done|]. simpl. by destruct (isspace c). Qed.

Lemma sub_ws_single_spaced b s : single_spaced b (sub_ws_from b s) = true.
Proof.
  revert b. induction s as [|c r IH]; intros b; [done|].
  simpl. destruct (isspace c) eqn:E.
  - destruct b; [apply IH|]. simpl. apply IH.
  - simpl. rewrite E. apply IH.
Qed.

Lemma single_spaced_fixed b s : single_spaced b s = true → sub_ws_from b s = s.
Proof.
  revert b. induction s as [|c r IH]; intros b; [done|].
  simpl. destruct (isspace c).
  - destruct b; [done|]. simpl.
    intros [Hc Hr]%andb_prop. apply N.eqb_eq in Hc as ->. by rewrite (IH true).
  - intros Hr. by rewrite (IH false).
Qed.

Lemma single_spaced_lstrip b s :
  single_spaced b s = true → single_spaced false (lstrip s) = true.
Proof.
  revert b. induction s as [|c r IH]; intros b; [done|].
  simpl. destruct (isspace c) eqn:E.
  - intros [_ Hr]%andb_prop. by apply (IH true).
  - intros Hr. simpl. by rewrite E.
Qed.

Lemma single_spaced_app_l b s t :
  single_spaced b (s ++ t) = true → single_spaced b s = true.
Proof.
  revert b. induction s as [|c r IH]; intros b; [done|].
  simpl. destruct (isspace c).
  - intros [Hc Hr]%andb_prop. rewrite Hc. by apply (IH true).
  - apply IH.
Qed.

Lemma single_spaced_rstrip b s :
  single_spaced b s = true → single_spaced b (rstrip s) = true.
Proof.
  destruct (rstrip_prefix s) as [post H]. rewrite H at 1.
  apply single_spaced_app_l.
Qed.

(** [re.sub] leaves a stripped, single-spaced string as it is. *)
Lemma squeeze_fixed s :
  strip (re_sub_ws (strip (re_sub_ws s))) = strip (re_sub_ws s).
Proof.
  unfold re_sub_ws at 1. rewrite single_spaced_fixed.
  - apply strip_idem.
  - unfold strip. apply single_spaced_rstrip, (single_spaced_lstrip false).
    apply sub_ws_single_spaced.
Qed.

(** After a whitespace character, [re.sub] goes on behind the whole run. *)
Lemma sub_ws_from_run s : sub_ws_from true s = re_sub_ws (lstrip s).
Proof.
  induction s as [|c r IH]; [done|].
  simpl. destruct (isspace c) eqn:E; [done|]. unfold re_sub_ws. simpl. by rewrite E.
Qed.

Section NormalForm.
Context (nfkc : text → text).

(** Three facts of Unicode normalization: normalizing is idempotent, a
    piece of a normalized string is normalized, and two normalized
    strings joined by a space are normalized. *)
Hypothesis nfkc_idem : ∀ x, nfkc (nfkc x) = nfkc x.
Hypothesis nfkc_piece : ∀ a b, nfkc (a ++ b) = a ++ b → nfkc a = a ∧ nfkc b = b.
Hypothesis nfkc_space :
  ∀ a b, nfkc a = a → nfkc b = b → nfkc (a ++ SPACE :: b) = a ++ SPACE :: b.

Lemma nfkc_sub_ws s :
  (∀ p, nfkc (p ++ s) = p ++ s → nfkc (p ++ sub_ws_from false s) = p ++ sub_ws_from false s)
  ∧ (nfkc s = s → nfkc (sub_ws_from true s) = sub_ws_from true s).
Proof.
  induction s as [|c r [IH1 IH2]]; [done|].
  simpl. destruct (isspace c); split.
  - intros p H. destruct (nfkc_piece _ _ H) as [Hp Hr].
    apply (nfkc_piece [c] r) in Hr as [_ Hr]. auto.
  - intros H. apply (nfkc_piece [c] r) in H as [_ Hr]. auto.
  - intros p H. rewrite (cons_middle c p), app_assoc.
    apply IH1. by rewrite <- app_assoc.
  - intros H. apply (IH1 [c]), H.
Qed.

Lemma nfkc_squeeze s : nfkc s = s → nfkc (strip (re_sub_ws s)) = strip (re_sub_ws s).
Proof.
  intros H. apply (proj1 (nfkc_sub_ws s) []) in H. simpl in H.
  fold (re_sub_ws s) in H. unfold strip.
  destruct (lstrip_suffix (re_sub_ws s)) as [pre Hl]. rewrite Hl in H.
  apply nfkc_piece in H as [_ H].
  destruct (rstrip_prefix (lstrip (re_sub_ws s))) as [post Hr]. rewrite Hr in H.
  by apply nfkc_piece in H as [H _].
Qed.

(** C7: [clean_text] is idempotent: for every text [x],
    [clean_text (clean_text x) = clean_text x], given the three facts of
    Unicode normalization above. *)
Theorem clean_text_idempotent x :
  clean_text nfkc (clean_text nfkc x) = clean_text nfkc x.
Proof.
  unfold clean_text.
  rewrite (nfkc_squeeze (nfkc x)) by apply nfkc_idem.
  apply squeeze_fixed.
Qed.
End NormalForm.

Lemma nfkc_spaces_idem x : nfkc_spaces (nfkc_spaces x) = nfkc_spaces x.
Proof.
  unfold nfkc_spaces. rewrite List.map_map. apply List.map_ext. intros c.
  destruct ((c =? 160) || ((8192 <=? c) && (c <=? 8202))
            || (c =? 8239) || (c =? 8287) || (c =? 12288)) eqn:E;
    [reflexivity | by rewrite E].
Qed.

Lemma nfkc_spaces_piece a b :
  nfkc_spaces (a ++ b) = a ++ b → nfkc_spaces a = a ∧ nfkc_spaces b = b.
Proof.
  unfold nfkc_spaces. rewrite List.map_app. intros H.
  apply app_inj_1 in H; [done|]. by rewrite length_map.
Qed.

Lemma nfkc_spaces_space a b :
  nfkc_spaces a = a → nfkc_spaces b = b →
  nfkc_spaces (a ++ SPACE :: b) = a ++ SPACE :: b.
Proof.
  unfold nfkc_spaces. intros Ha Hb. rewrite List.map_app. simpl.
  by rewrite Ha, Hb.
Qed.

(** C7 at the text NBSP [a] TAB LF [b] EM-SPACE. *)
Lemma clean_text_idempotent_witness :
  clean_text nfkc_spaces (clean_text nfkc_spaces [160; 97; 9; 10; 98; 8195])
  = clean_text nfkc_spaces [160; 97; 9; 10; 98; 8195].
Proof.
  apply (clean_text_idempotent nfkc_spaces
           nfkc_spaces_idem nfkc_spaces_piece nfkc_spaces_space).
Defined.

(** ** Document order *)


(** The first position that passes a filter splits the sequence: nothing
    before it passes, and what follows it is its [next_elements]. *)
Lemma head_filter_positions (keep : node → bool) l c :
  head (List.filter (λ p, keep (here p)) (positions l)) = Some c →
  ∃ pre, l = pre ++ here c :: next_elements c
         ∧ Forall (λ n, keep n = false) pre ∧ keep (here c) = true.
Proof.
  induction l as [|n r IH]; [done|].
  simpl. destruct (keep n) eqn:E; simpl.
  - intros [= <-]. exists []. by simpl.
  - intros H. destruct (IH H) as (pre & -> & Hpre & Hc).
    exists (n :: pre). by repeat split; [constructor|].
Qed.

Lemma head_filter_positions_None (keep : node → bool) l :
  head (List.filter (λ p, keep (here p)) (positions l)) = None
  ↔ Forall (λ n, keep n = false) l.
Proof.
  induction l as [|n r IH]; [done|].
  simpl. destruct (keep n) eqn:E; simpl.
  - split; [done|]. intros H. apply Forall_cons in H as [H _]. congruence.
  - rewrite IH. split; [by constructor|]. by intros [_ H]%Forall_cons.
Qed.

(** The tag positions after a found tag are the rest of the search. *)
Lemma find_all_next_step pos c rest :
  find_all_next (λ _, true) pos = c :: rest →
  find_all_next (λ _, true) c = rest.
Proof.
  unfold find_all_next. generalize (next_elements pos) as l.
  induction l as [|n r IH]; [done|].
  simpl. destruct (is_tag n); simpl; [|done]. by intros [= <- <-].
Qed.

Lemma find_next_cases pos :
  (find_next pos = None ∧ tags_after pos = [])
  ∨ (∃ c, find_next pos = Some c
          ∧ tags_after pos = here c :: tags_after c).
Proof.
  unfold find_next, tags_after.
  destruct (find_all_next (λ _, true) pos) as [|c rest] eqn:E; [by left|].
  right. exists c. by rewrite (find_all_next_step _ _ _ E).
Qed.

Lemma tags_after_are_tags pos : Forall (λ n, is_tag n = true) (tags_after pos).
Proof.
  unfold tags_after, find_all_next. generalize (next_elements pos) as l.
  induction l as [|n r IH]; [constructor|].
  simpl. destruct (is_tag n) eqn:E; simpl; [by constructor|done].
Qed.

(** ** The two walks *)

Lemma between_loop_spec budget end_id pos content seen :
  between_loop budget end_id (find_next pos) content seen =
  (content ++ flat_map step_text
     (before_stop (hits_end end_id) (take budget (tags_after pos))),
   seen ++ up_to_stop (hits_end end_id) (take budget (tags_after pos))).
Proof.
  revert pos content seen.
  induction budget as [|b IH]; intros pos content seen.
  - simpl. by rewrite !app_nil_r.
  - destruct (find_next_cases pos) as [[-> ->]|(c & -> & ->)].
    + simpl. by rewrite !app_nil_r.
    + simpl. destruct (hits_end end_id (here c)).
      * simpl. by rewrite app_nil_r.
      * rewrite IH. simpl. by rewrite <- !app_assoc.
Qed.

Lemma regex_loop_unfold b c content seen :
  regex_loop (S b) (Some c) content seen =
  if regex_stop (here c) then (content, seen ++ [here c])
  else regex_loop b (find_next c) (content ++ regex_step (here c))
         (seen ++ [here c]).
Proof. reflexivity. Qed.

Lemma regex_loop_spec budget pos content seen :
  regex_loop budget (find_next pos) content seen =
  (content ++ flat_map regex_step
     (before_stop regex_stop (take budget (tags_after pos))),
   seen ++ up_to_stop regex_stop (take budget (tags_after pos))).
Proof.
  revert pos content seen.
  induction budget as [|b IH]; intros pos content seen.
  - simpl. by rewrite !app_nil_r.
  - destruct (find_next_cases pos) as [[-> ->]|(c & -> & ->)].
    + simpl. by rewrite !app_nil_r.
    + rewrite regex_loop_unfold. simpl. destruct (regex_stop (here c)).
      * simpl. by rewrite app_nil_r.
      * rewrite IH. simpl. by rewrite <- !app_assoc.
Qed.

Lemma up_to_stop_length stop l : (length (up_to_stop stop l) ≤ length l)%nat.
Proof.
  induction l as [|n r IH]; [done|].
  simpl. destruct (stop n); simpl; lia.
Qed.

Lemma before_stop_never stop l :
  Forall (λ n, stop n = false) l → before_stop stop l = l.
Proof.
  induction 1 as [|n r Hn _ IH]; [done|]. simpl. by rewrite Hn, IH.
Qed.

Lemma before_stop_sublist stop l : ∃ rest, l = before_stop stop l ++ rest.
Proof.
  induction l as [|n r [rest IH]]; [by exists []|].
  simpl. destruct (stop n); [by exists (n :: r)|].
  exists rest. simpl. by rewrite <- IH.
Qed.

Lemma find_id_unfold start_id soup :
  find_id start_id soup =
  head (List.filter (λ p, carries_id start_id (here p))
          (positions (descendants soup))).
Proof. reflexivity. Qed.

Lemma between_result soup start_id end_id :
  extract_content_between_anchors soup start_id end_id =
  (λ st, join_space (flat_map step_text
           (before_stop (hits_end end_id) (take max_elements (tags_after st)))))
  <$> find_id start_id soup.
Proof.
  unfold extract_content_between_anchors.
  destruct (find_id start_id soup) as [st|]; [|done].
  by rewrite between_loop_spec.
Qed.

Lemma between_visited_spec soup start_id end_id :
  between_visited soup start_id end_id =
  match find_id start_id soup with
  | Some st => up_to_stop (hits_end end_id) (take max_elements (tags_after st))
  | None => []
  end.
Proof.
  unfold between_visited.
  destruct (find_id start_id soup) as [st|]; [|done].
  by rewrite between_loop_spec.
Qed.

(** ** C1: what the extractor appends *)












(** In [script_document] the code of the script is not part of the text
    of the [div] around it, and is the text of the [script] element
    itself: the loop appends [tt] for the [div], [t] for each paragraph
    and the code for the script. *)
Example script_document_extraction :
  extract_content_between_anchors script_document (u "s") None
  = Some (u "tt t var x=1; t").
Proof. vm_compute. reflexivity. Qed.

(** ** C2: the ceilings *)

(** C2: both walks stop at their ceiling.  The loop of
    [extract_content_between_anchors] runs on at most 5000 nodes and the
    loop of [extract_via_regex] on at most 3000, for every document; and
    when no node within the ceiling stops the walk, the text of the nodes
    within the ceiling is what is returned. *)
Theorem walks_stop_at_ceiling nfkc soup start_id end_id :
  max_elements = 5000%nat ∧ regex_limit = 3000%nat
  ∧ (length (between_visited soup start_id end_id) ≤ max_elements)%nat
  ∧ (length (regex_visited nfkc soup) ≤ regex_limit)%nat
  ∧ (∀ st, find_id start_id soup = Some st →
       Forall (λ n, hits_end end_id n = false) (take max_elements (tags_after st)) →
       extract_content_between_anchors soup start_id end_id
       = Some (join_space (flat_map step_text (take max_elements (tags_after st)))))
  ∧ (∀ cand, regex_candidate nfkc soup = Some cand →
       Forall (λ n, regex_stop n = false)
              (take regex_limit (tags_after (pos_of cand))) →
       extract_via_regex nfkc soup
       = (Some (join_space (flat_map regex_step
                  (take regex_limit (tags_after (pos_of cand))))),
          u "Regex extraction")).
Proof.
  split; [done|]. split; [done|]. repeat split.
  - rewrite between_visited_spec. destruct (find_id start_id soup); [|simpl; lia].
    etrans; [apply up_to_stop_length|]. rewrite length_take. lia.
  - unfold regex_visited. destruct (regex_candidate nfkc soup); [|simpl; lia].
    rewrite regex_loop_spec. simpl.
    etrans; [apply up_to_stop_length|]. rewrite length_take. lia.
  - intros st Hst Hno. rewrite between_result, Hst. simpl.
    by rewrite before_stop_never.
  - intros cand Hc Hno. unfold extract_via_regex. rewrite Hc.
    rewrite regex_loop_spec. simpl. by rewrite before_stop_never.
Qed.

Lemma Forall_false_forallb {A} (f : A → bool) l :
  forallb (λ n, negb (f n)) l = true → Forall (λ n, f n = false) l.
Proof.
  induction l as [|n r IH]; [constructor|].
  simpl. intros [Hn Hr]%andb_prop. constructor; [|by apply IH].
  by destruct (f n).
Qed.

(** C2 at [adversarial]: 5002 tags follow the start anchor, the end id is
    nowhere, and the text of the first 5000 tags is returned. *)
Lemma walks_stop_at_ceiling_witness :
  ∃ st, find_id (u "s") adversarial = Some st
    ∧ length (tags_after st) = S (S max_elements)
    ∧ (length (between_visited adversarial (u "s") (Some (u "missing")))
       ≤ max_elements)%nat
    ∧ extract_content_between_anchors adversarial (u "s") (Some (u "missing"))
      = Some (join_space (flat_map step_text (take max_elements (tags_after st)))).
Proof.
  destruct (walks_stop_at_ceiling nfkc_spaces adversarial (u "s")
              (Some (u "missing"))) as (_ & _ & Hbound & _ & Hreturn & _).
  eexists. split; [vm_compute; reflexivity|].
  split; [vm_compute; reflexivity|].
  split; [exact Hbound|].
  apply Hreturn; [vm_compute; reflexivity|].
  apply Forall_false_forallb. vm_compute. reflexivity.
Defined.

(** ** C8: when the extractor returns nothing *)

Lemma find_id_None start_id soup :
  find_id start_id soup = None
  ↔ Forall (λ n, carries_id start_id n = false) (descendants soup).
Proof. rewrite find_id_unfold. apply head_filter_positions_None. Qed.

(** A node carries an id exactly when its [id] attribute is there and is
    that id. *)
Lemma carries_id_get start_id n :
  carries_id start_id n = true ↔ get n "id" = Some start_id.
Proof.
  unfold carries_id. destruct n as [k s|name attrs cs]; simpl; [done|].
  destruct (attrs !! u "id") as [v|]; simpl; [|done].
  rewrite bool_decide_eq_true. split; congruence.
Qed.

(** [soup.find(id=start_id)] finds nothing exactly when no node of the
    document has [start_id] as the value of its [id] attribute. *)
Lemma find_id_missing start_id soup :
  find_id start_id soup = None
  ↔ Forall (λ n, get n "id" ≠ Some start_id) (descendants soup).
Proof.
  rewrite find_id_None. apply Forall_iff. intros n.
  rewrite <- carries_id_get. by destruct (carries_id start_id n).
Qed.

(** C8: the extractor returns [None] exactly when no node of the document
    has the start id as the value of its [id] attribute (a node without
    the attribute does not resolve the empty id); when the start anchor is
    found it returns the space-joined accumulator of the walk, which can
    be empty. *)
Theorem extract_none_iff_start_missing soup start_id end_id :
  (extract_content_between_anchors soup start_id end_id = None
   ↔ Forall (λ n, get n "id" ≠ Some start_id) (descendants soup))
  ∧ (extract_content_between_anchors soup start_id end_id = None
     ↔ find_id start_id soup = None)
  ∧ match find_id start_id soup with
    | Some start_elem =>
        get (here start_elem) "id" = Some start_id
        ∧ extract_content_between_anchors soup start_id end_id
          = Some (join_space
                    (fst (between_loop max_elements end_id
                            (find_next start_elem) [] [])))
    | None => True
    end.
Proof.
  rewrite <- find_id_missing.
  pose proof (find_id_unfold start_id soup) as Hfind.
  unfold extract_content_between_anchors.
  destruct (find_id start_id soup) as [st|]; [|done].
  destruct (between_loop max_elements end_id (find_next st) [] []) as [content seen].
  split; [done|]. split; [done|]. split; [|done].
  symmetry in Hfind. apply head_Some_elem_of in Hfind.
  apply list_elem_of_In, filter_In in Hfind as [_ Hc].
  by apply carries_id_get.
Qed.

(** For the empty start id, the target of [href="#"], the elements
    without an [id] do not count: the extractor returns [None]. *)
Example extract_none_for_empty_id :
  extract_content_between_anchors hash_only_document [] None = None.
Proof. vm_compute. reflexivity. Qed.

(** An anchor that is found and followed by nothing gives the empty
    string, not [None]. *)
Example extract_empty_not_none :
  extract_content_between_anchors
    (BeautifulSoup [el "a" [attr "id" "s"] []]) (u "s") None = Some [].
Proof. vm_compute. reflexivity. Qed.

(** ** Equality of page elements *)

Lemma node_induction (P : node → Prop) :
  (∀ cls s, P (NavigableString cls s)) →
  (∀ name attrs cs, Forall P cs → P (Tag name attrs cs)) →
  ∀ n, P n.
Proof.
  intros Hs Ht. fix IH 1. intros [k s|name attrs cs]; [apply Hs|].
  apply Ht. induction cs as [|c r IHr]; constructor; [apply IH|apply IHr].
Qed.

Lemma node_eqb_tag n1 a1 c1 n2 a2 c2 :
  node_eqb (Tag n1 a1 c1) (Tag n2 a2 c2) = true
  ↔ n1 = n2 ∧ a1 = a2 ∧ Forall2 (λ x y, node_eqb x y = true) c1 c2.
Proof.
  simpl. rewrite !andb_true_iff, !bool_decide_eq_true.
  assert ((fix all_eqb (xs ys : list node) : bool :=
             match xs, ys with
             | [], [] => true
             | x :: xs', y :: ys' => node_eqb x y && all_eqb xs' ys'
             | _, _ => false
             end) c1 c2 = true
          ↔ Forall2 (λ x y, node_eqb x y = true) c1 c2) as ->.
  { revert c2. induction c1 as [|x r IHr]; intros [|y r'].
    - split; [constructor|done].
    - split; [done|]. intros H. inversion H.
    - split; [done|]. intros H. inversion H.
    - rewrite andb_true_iff, IHr. split.
      + intros [Hx Hr]. by constructor.
      + intros H. by inversion H. }
  tauto.
Qed.

(** Every page element is [==] to itself. *)
Lemma node_eqb_refl a : node_eqb a a = true.
Proof.
  induction a as [k s|name attrs cs IH] using node_induction.
  - simpl. by apply bool_decide_eq_true.
  - apply node_eqb_tag. split; [done|]. split; [done|].
    induction IH as [|c r Hc _ IHr]; by constructor.
Qed.

(** Page elements that are [==] have the same [.string]. *)
Lemma node_eqb_string_of a b : node_eqb a b = true → string_of a = string_of b.
Proof.
  revert b. induction a as [k s|name attrs cs IH] using node_induction;
    intros [k' t|name' attrs' cs']; try done.
  - simpl. intros ->%bool_decide_eq_true. done.
  - intros (_ & _ & Hcs)%node_eqb_tag.
    destruct Hcs as [|c c' r r' Hc Hr]; [done|].
    destruct Hr as [|d d' q q' Hd Hq]; [|done].
    simpl. apply Forall_cons in IH as [IH _]. by apply IH.
Qed.

(** Page elements that are [==] pass the same filters on the name and
    on [.string]. *)
Lemma node_eqb_same_filter (f : option text → bool) a b :
  node_eqb a b = true →
  is_tag a && (has_name "a" a && f (string_of a))
  = is_tag b && (has_name "a" b && f (string_of b)).
Proof.
  intros H. rewrite (node_eqb_string_of a b H).
  destruct a as [k s|name attrs cs], b as [k' t|name' attrs' cs']; try done.
  apply node_eqb_tag in H as (-> & _ & _). done.
Qed.

(** ** The TOC locator *)

Lemma has_name_is_tag name n : has_name name n = true → is_tag n = true.
Proof. by destruct n. Qed.

(** Where step 1 finds its link: nothing before it in the document is
    [==] to it, what follows it is its [next_elements], and it matched
    the literal unless no link of the document does. *)
Lemma toc_link_split soup link :
  toc_link soup = Some link →
  ∃ pre, descendants soup = pre ++ here link :: next_elements link
    ∧ Forall (λ n, node_eqb n (here link) = false) pre
    ∧ toc_match (here link) = true
    ∧ (risk_factors_in (string_of (here link)) = true
       ∨ Forall (λ n, (has_name "a" n && risk_factors_in (string_of n)) = false)
                (descendants soup)).
Proof.
  unfold toc_link, find_a_string, find, find_all.
  destruct (head (List.filter
              (λ p, is_tag (here p)
                    && (has_name "a" (here p) && risk_factors_in (string_of (here p))))
              (positions (descendants soup)))) as [l1|] eqn:E1.
  - intros [= ->].
    apply (head_filter_positions
             (λ n, is_tag n && (has_name "a" n && risk_factors_in (string_of n))))
      in E1 as (pre & Hsplit & Hpre & Hk).
    apply andb_prop in Hk as [_ [Ha Hl]%andb_prop].
    exists pre. split; [done|]. split.
    + eapply Forall_impl; [exact Hpre|]. intros n Hn. simpl in Hn.
      destruct (node_eqb n (here link)) eqn:E; [|done].
      rewrite (node_eqb_same_filter risk_factors_in _ _ E) in Hn.
      by rewrite Ha, Hl, (has_name_is_tag _ _ Ha) in Hn.
    + unfold toc_match. rewrite Ha, Hl. auto.
  - intros E2.
    apply (head_filter_positions_None
             (λ n, is_tag n && (has_name "a" n && risk_factors_in (string_of n))))
      in E1.
    apply (head_filter_positions
             (λ n, is_tag n && (has_name "a" n
                                && searches item_1a_pattern (string_of n))))
      in E2 as (pre & Hsplit & Hpre & Hk).
    apply andb_prop in Hk as [_ [Ha Hl]%andb_prop].
    exists pre. split; [done|]. split; [|split].
    + eapply Forall_impl; [exact Hpre|]. intros n Hn. simpl in Hn.
      destruct (node_eqb n (here link)) eqn:E; [|done].
      rewrite (node_eqb_same_filter (searches item_1a_pattern) _ _ E) in Hn.
      by rewrite Ha, Hl, (has_name_is_tag _ _ Ha) in Hn.
    + unfold toc_match. rewrite Ha, Hl. by rewrite orb_true_r.
    + right. eapply Forall_impl; [exact E1|]. intros n Hn. simpl in Hn.
      destruct (has_name "a" n) eqn:Hn'; [|done].
      by rewrite (has_name_is_tag _ _ Hn') in Hn.
Qed.

Lemma toc_link_None soup :
  toc_link soup = None ↔ Forall (λ n, toc_match n = false) (descendants soup).
Proof.
  unfold toc_link, find_a_string, find, find_all.
  destruct (head (List.filter
              (λ p, is_tag (here p)
                    && (has_name "a" (here p) && risk_factors_in (string_of (here p))))
              (positions (descendants soup)))) as [l1|] eqn:E1.
  - split; [done|]. intros H.
    apply (head_filter_positions
             (λ n, is_tag n && (has_name "a" n && risk_factors_in (string_of n))))
      in E1 as (pre & Hsplit & _ & Hk).
    rewrite Hsplit in H. apply Forall_app in H as [_ H].
    apply Forall_cons in H as [H _]. unfold toc_match in H.
    apply andb_prop in Hk as [_ [Ha Hl]%andb_prop]. by rewrite Ha, Hl in H.
  - apply (head_filter_positions_None
             (λ n, is_tag n && (has_name "a" n && risk_factors_in (string_of n))))
      in E1.
    rewrite (head_filter_positions_None
               (λ n, is_tag n && (has_name "a" n
                                  && searches item_1a_pattern (string_of n)))).
    rewrite !Forall_forall in *. split; intros H n Hn.
    + specialize (H n Hn). specialize (E1 n Hn). simpl in *. unfold toc_match.
      destruct (has_name "a" n) eqn:Ha; [|done].
      rewrite (has_name_is_tag _ _ Ha) in *. simpl in *. by rewrite E1, H.
    + specialize (H n Hn). unfold toc_match in H. simpl.
      destruct (has_name "a" n) eqn:Ha; [|by rewrite andb_false_r].
      simpl in *. apply orb_false_elim in H as [_ ->]. by rewrite andb_false_r.
Qed.

Lemma find_all_a_href_unfold soup :
  find_all_a_href soup =
  List.filter (λ p, is_a_href (here p)) (positions (descendants soup)).
Proof. reflexivity. Qed.

(** The inner loop returns the first distinct internal target among the
    links it is given. *)
Lemma internal_target_Some href target :
  internal_target href = Some target → href = Some (35 :: target).
Proof.
  destruct href as [[|c t]|]; try done. simpl.
  destruct c as [|q]; [done|].
  do 6 (destruct q as [q|q|]; try done). by intros [= ->].
Qed.

Lemma end_candidate_not_link start_id n :
  is_a_href n = false → end_candidate start_id n = None.
Proof.
  unfold is_a_href, end_candidate. destruct (has_name "a" n) eqn:Ha; [|done].
  rewrite (has_name_is_tag _ _ Ha). simpl. intros H.
  destruct (internal_target (get n "href")) as [t|] eqn:T; [|done].
  apply internal_target_Some in T. rewrite T in H.
  apply bool_decide_eq_false in H. destruct H. by eexists.
Qed.

Lemma end_candidate_link start_id n :
  is_a_href n = true →
  end_candidate start_id n =
  match internal_target (get n "href") with
  | Some target => if bool_decide (target = start_id) then None else Some target
  | None => None
  end.
Proof.
  unfold is_a_href, end_candidate. intros [_ [-> _]%andb_prop]%andb_prop. done.
Qed.

Lemma next_distinct_target_spec start_id l :
  next_distinct_target start_id
    (List.filter (λ p, is_a_href (here p)) (positions l))
  = first_distinct_internal start_id l.
Proof.
  unfold first_distinct_internal.
  induction l as [|n r IH]; [done|].
  cbn [positions List.filter here omap list_omap].
  destruct (is_a_href n) eqn:K.
  - cbn [next_distinct_target here]. rewrite (end_candidate_link _ _ K).
    destruct (internal_target (get n "href")) as [t|]; [|apply IH].
    destruct (bool_decide (t = start_id)); [apply IH|done].
  - by rewrite (end_candidate_not_link _ _ K).
Qed.

(** The outer loop finds the matched link at its own place in the list of
    links, when no earlier node is [==] to it. *)
Lemma toc_end_id_spec link start_id pre post :
  Forall (λ n, node_eqb n link = false) pre → is_a_href link = true →
  toc_end_id link start_id
    (List.filter (λ p, is_a_href (here p)) (positions (pre ++ link :: post)))
  = first_distinct_internal start_id post.
Proof.
  intros Hpre Hlink. induction Hpre as [|n pre Hn _ IH]; simpl.
  - rewrite Hlink. simpl. rewrite node_eqb_refl. apply next_distinct_target_spec.
  - destruct (is_a_href n); [|apply IH]. simpl. by rewrite Hn.
Qed.

Lemma first_distinct_internal_distinct start_id l :
  first_distinct_internal start_id l ≠ Some start_id.
Proof.
  unfold first_distinct_internal.
  induction l as [|n r IH]; [done|].
  simpl. destruct (end_candidate start_id n) as [t|] eqn:E; [|done].
  simpl. intros [= ->]. unfold end_candidate in E.
  destruct (has_name "a" n); [|done].
  destruct (internal_target (get n "href")) as [t|]; [|done].
  destruct (bool_decide (t = start_id)) eqn:D; [done|].
  apply bool_decide_eq_false in D. congruence.
Qed.

Lemma first_distinct_internal_None start_id l :
  first_distinct_internal start_id l = None
  ↔ Forall (λ n, end_candidate start_id n = None) l.
Proof.
  unfold first_distinct_internal.
  induction l as [|n r IH]; [done|].
  simpl. destruct (end_candidate start_id n) as [t|] eqn:E; simpl.
  - split; [done|]. intros [H _]%Forall_cons. congruence.
  - rewrite IH. split; [by constructor|]. by intros [_ H]%Forall_cons.
Qed.

(** The two loops together: the end id is the target of the first
    candidate after the matched link. *)
Lemma toc_end_id_first_distinct soup link start_id :
  toc_link soup = Some link →
  internal_target (get (here link) "href") = Some start_id →
  toc_end_id (here link) start_id (find_all_a_href soup)
  = first_distinct_internal start_id (next_elements link).
Proof.
  intros Hlink Hhref.
  destruct (toc_link_split _ _ Hlink) as (pre & Hsplit & Hpre & Hm & _).
  rewrite find_all_a_href_unfold, Hsplit.
  apply toc_end_id_spec; [done|].
  unfold toc_match in Hm. apply andb_prop in Hm as [Ha _].
  unfold is_a_href. rewrite Ha, (has_name_is_tag _ _ Ha). simpl.
  apply bool_decide_eq_true.
  rewrite (internal_target_Some _ _ Hhref). by eexists.
Qed.

(** C3: when step 1 matches a link with an internal href, the end id the
    TOC locator chooses is the target of the first link after the matched
    link in document order whose href is internal and whose target differs
    from the start id; it is never the start id, and it is unset exactly
    when no link after the matched one is such a candidate. *)
Theorem toc_end_is_first_distinct_target soup link start_id :
  toc_link soup = Some link →
  internal_target (get (here link) "href") = Some start_id →
  let end_id := toc_end_id (here link) start_id (find_all_a_href soup) in
  extract_via_toc soup
  = (extract_content_between_anchors soup start_id end_id, toc_label end_id)
  ∧ end_id = first_distinct_internal start_id (next_elements link)
  ∧ end_id ≠ Some start_id
  ∧ (end_id = None
     ↔ Forall (λ n, end_candidate start_id n = None) (next_elements link)).
Proof.
  intros Hlink Hhref. simpl.
  pose proof (toc_end_id_first_distinct soup link start_id Hlink Hhref)
    as Hend.
  split; [unfold extract_via_toc; by rewrite Hlink, Hhref|].
  split; [done|]. rewrite Hend.
  split; [apply first_distinct_internal_distinct|apply first_distinct_internal_None].
Qed.

(** C3 at [toc_document]: the matched link is the first one, the start id
    is [rf], and the chosen end id is the first distinct internal target
    after it. *)
Lemma toc_end_is_first_distinct_target_witness :
  ∃ link, toc_link toc_document = Some link
    ∧ internal_target (get (here link) "href") = Some (u "rf")
    ∧ toc_end_id (here link) (u "rf") (find_all_a_href toc_document)
      = first_distinct_internal (u "rf") (next_elements link)
    ∧ toc_end_id (here link) (u "rf") (find_all_a_href toc_document)
      ≠ Some (u "rf").
Proof.
  eexists. split; [vm_compute; reflexivity|]. split; [vm_compute; reflexivity|].
  match goal with
  | |- toc_end_id (here ?l) _ _ = _ ∧ _ =>
      destruct (toc_end_is_first_distinct_target toc_document l (u "rf"))
        as (_ & Hend & Hne & _)
  end; [vm_compute; reflexivity|vm_compute; reflexivity|].
  split; [exact Hend|exact Hne].
Defined.

(** In [toc_document] the page-number link to [rf] is skipped and the end
    id is [unregisteredsales]. *)
Example toc_document_extraction :
  extract_via_toc toc_document
  = (Some (u "Our business faces risks including X, Y, Z."),
     u "TOC extraction (End anchor: unregisteredsales)").
Proof. vm_compute. reflexivity. Qed.

(** ** C4: step 1 of the TOC locator *)

(** C4, as stated, fails: the link of [nested_link_document] shows the
    text [Item 1A. Risk Factors], which contains the phrase and matches the
    item-label pattern, and step 1 still reports that there is no TOC
    link: the link has two children, so [link.string] is [None]. *)
Lemma toc_misses_link_with_markup :
  ∃ link, link ∈ descendants nested_link_document
    ∧ has_name "a" link = true
    ∧ get_text link = u "Item 1A. Risk Factors"
    ∧ contains (u "Risk Factors") (get_text link) = true
    ∧ re_search item_1a_pattern (get_text link) = true
    ∧ string_of link = None
    ∧ extract_via_toc nested_link_document = (None, u "No TOC link found").
Proof.
  eexists. split; [apply list_elem_of_here|].
  repeat split; vm_compute; reflexivity.
Qed.

Lemma toc_label_not_failure end_id :
  toc_label end_id ≠ u "No TOC link found"
  ∧ toc_label end_id ≠ u "TOC link has no internal href".
Proof.
  split; intros H; apply (f_equal (take 5)) in H; vm_compute in H; discriminate H.
Qed.

(** C4, amended: step 1 decides on [link.string], the single string below
    a chain of only children.  The locator returns
    [(None, "No TOC link found")] exactly when no [a] tag of the document
    has a [.string] that contains [Risk Factors] or that the item-label
    pattern matches; otherwise step 1 finds such a link of the document,
    one whose [.string] contains the phrase when there is any. *)
Theorem toc_step1_decides_on_string soup :
  (extract_via_toc soup = (None, u "No TOC link found")
   ↔ Forall (λ n, toc_match n = false) (descendants soup))
  ∧ match toc_link soup with
    | Some link =>
        here link ∈ descendants soup
        ∧ toc_match (here link) = true
        ∧ (risk_factors_in (string_of (here link)) = true
           ∨ Forall (λ n, (has_name "a" n && risk_factors_in (string_of n)) = false)
                    (descendants soup))
    | None => Forall (λ n, toc_match n = false) (descendants soup)
    end.
Proof.
  rewrite <- toc_link_None. unfold extract_via_toc.
  destruct (toc_link soup) as [link|] eqn:E.
  - split.
    + split; [|done].
      destruct (internal_target (get (here link) "href"));
        [|intros H; vm_compute in H; discriminate H].
      intros H. apply (f_equal snd) in H. by apply toc_label_not_failure in H.
    + destruct (toc_link_split _ _ E) as (pre & Hsplit & _ & Hm & Hlit).
      split; [|done]. rewrite Hsplit. apply elem_of_app. right. left.
  - split; [done|]. by apply toc_link_None.
Qed.

(** ** C5: the header candidate of the regex locator *)

Lemma elements_from_tag name attrs cs after par :
  elements_from (Tag name attrs cs) after par
  = let self :=
      Element (Position (Tag name attrs cs) (forest cs ++ after)) par in
    self :: children_from (Some self) cs after.
Proof.
  simpl. f_equal. remember (Some _) as self eqn:Hs. clear Hs.
  induction cs as [|c r IH]; [done|].
  simpl. by rewrite IH.
Qed.

(** The elements listed for a node stand at the positions of the document
    order: each one is followed by the rest of the document. *)
Lemma elements_from_positions n after par :
  List.map pos_of (elements_from n after par) ++ positions after
  = positions (n :: descendants n ++ after).
Proof.
  revert after par.
  induction n as [k s|name attrs cs IH] using node_induction; intros after par;
    [done|].
  rewrite elements_from_tag. cbn zeta.
  change (descendants (Tag name attrs cs)) with (forest cs).
  cbn [List.map positions pos_of app]. f_equal.
  generalize (Some (Element (Position (Tag name attrs cs) (forest cs ++ after)) par)).
  intros self. clear par.
  induction IH as [|c r Hc _ IHr]; [done|].
  cbn [children_from forest]. rewrite List.map_app, <- app_assoc, IHr.
  rewrite Hc. simpl. by rewrite <- app_assoc.
Qed.

Lemma children_from_positions self cs after :
  List.map pos_of (children_from self cs after) ++ positions after
  = positions (forest cs ++ after).
Proof.
  induction cs as [|c r IH]; [done|].
  cbn [children_from forest]. rewrite List.map_app, <- app_assoc, IH.
  rewrite elements_from_positions. simpl. by rewrite <- app_assoc.
Qed.

(** The elements below a tag have the tag as their parent, given that
    the same holds below each of them. *)
Lemma children_from_child self name attrs cs l after :
  here (pos_of self) = Tag name attrs cs → l ⊆ cs →
  Forall (λ c, ∀ after par, Forall child_of (tail (elements_from c after par))) l →
  Forall child_of (children_from (Some self) l after).
Proof.
  intros Hself Hl Hbelow. induction Hbelow as [|c r Hc _ IHr]; [constructor|].
  cbn [children_from]. apply Forall_app. split.
  - assert (c ∈ cs) as Hin by (apply Hl; left).
    specialize (Hc (forest r ++ after) (Some self)).
    destruct (elements_from c (forest r ++ after) (Some self))
      as [|e0 es] eqn:E; [by destruct c|].
    constructor; [|exact Hc].
    assert (e0 = Element (Position c (descendants c ++ forest r ++ after))
                   (Some self)) as ->.
    { destruct c; simpl in E; by injection E as <- _. }
    unfold child_of. simpl. by rewrite Hself.
  - apply IHr. intros x Hx. apply Hl. by right.
Qed.

(** The parent of every element below a node is the tag that holds it. *)
Lemma elements_from_child n after par :
  Forall child_of (tail (elements_from n after par)).
Proof.
  revert after par.
  induction n as [k s|name attrs cs IH] using node_induction; intros after par;
    [constructor|].
  rewrite elements_from_tag. cbn zeta. cbn [tail].
  by apply (children_from_child _ name attrs cs).
Qed.

Lemma soup_elements_child soup : Forall child_of (soup_elements soup).
Proof.
  destruct soup as [k s|name attrs cs]; [constructor|].
  apply (children_from_child _ name attrs cs); [done|done|].
  apply Forall_forall. intros c _ after par. apply elements_from_child.
Qed.

Lemma soup_elements_positions soup :
  List.map pos_of (soup_elements soup) = positions (descendants soup).
Proof.
  destruct soup as [k s|name attrs cs]; [done|].
  pose proof (children_from_positions
                (Some (Element (soup_position (Tag name attrs cs)) None)) cs [])
    as H.
  by rewrite !app_nil_r in H.
Qed.

(** The elements of a document are its descendants, in document order. *)
Lemma soup_elements_nodes soup :
  List.map (λ e, here (pos_of e)) (soup_elements soup) = descendants soup.
Proof.
  rewrite <- (List.map_map pos_of here), soup_elements_positions.
  induction (descendants soup) as [|n r IH]; [done|]. simpl. by rewrite IH.
Qed.

Lemma pick_candidate_spec nfkc matches :
  pick_candidate nfkc matches
  = head (List.filter (accepts nfkc) (omap parent_of matches)).
Proof.
  induction matches as [|[pos [parent|]] rest IH]; [done| |done].
  simpl. unfold accepts at 1.
  destruct (has_name "a" (here (pos_of parent)) || has_parent_a parent);
    [done|].
  simpl.
  by destruct (length (clean_text nfkc (get_text (here (pos_of parent))))
               <? 100)%nat.
Qed.

(** [find_all(string=pat)] returns all the strings of the document that
    [pat] matches, in document order. *)
Lemma find_all_string_nodes pat soup :
  List.map (λ m, here (pos_of m)) (find_all_string pat soup)
  = List.filter (pattern_matches pat) (descendants soup).
Proof.
  rewrite <- soup_elements_nodes.
  change (find_all_string pat soup)
    with (List.filter (λ e, pattern_matches pat (here (pos_of e)))
            (soup_elements soup)).
  induction (soup_elements soup) as [|e r IH]; [done|].
  simpl. destruct (pattern_matches pat (here (pos_of e))); simpl; by rewrite IH.
Qed.

Lemma find_all_string_matched pat soup :
  Forall (λ m, matched_string pat m ∧ child_of m) (find_all_string pat soup).
Proof.
  unfold find_all_string.
  pose proof (soup_elements_child soup) as H.
  induction H as [|e r He _ IH]; [constructor|].
  simpl. destruct (here (pos_of e)) as [k s|name attrs cs] eqn:E; [|done].
  destruct (nonempty s && re_search pat s) eqn:K; [|done].
  apply andb_prop in K as [Hs Hm].
  constructor; [|done]. split; [|done].
  exists k, s. by destruct s.
Qed.

(** The first accepted parent among the matches is the parent of one of
    them. *)
Lemma first_accepted_parent (keep : PageElement → bool) l parent :
  head (List.filter keep (omap parent_of l)) = Some parent →
  keep parent = true ∧ ∃ m, m ∈ l ∧ parent_of m = Some parent.
Proof.
  induction l as [|m r IH]; [done|].
  simpl. destruct (parent_of m) as [p|] eqn:E; simpl.
  - destruct (keep p) eqn:K; simpl.
    + intros [= <-]. split; [done|]. exists m. split; [left|done].
    + intros H. destruct (IH H) as (Hk & m' & Hin & Hp).
      split; [done|]. exists m'. split; [by right|done].
  - intros H. destruct (IH H) as (Hk & m' & Hin & Hp).
    split; [done|]. exists m'. split; [by right|done].
Qed.

Lemma none_accepted (keep : PageElement → bool) (l : list PageElement) :
  head (List.filter keep l) = None → Forall (λ p, keep p = false) l.
Proof.
  induction l as [|e r IH]; [constructor|].
  simpl. destruct (keep e) eqn:K; [done|]. by constructor; [|apply IH].
Qed.

(** The match after matches whose parents are all refused gives the
    candidate, if its parent is accepted. *)
Lemma first_accepted_after (keep : PageElement → bool) pre m post parent :
  Forall (λ x, ∀ q, parent_of x = Some q → keep q = false) pre →
  parent_of m = Some parent → keep parent = true →
  head (List.filter keep (omap parent_of (pre ++ m :: post))) = Some parent.
Proof.
  intros Hpre Hm Hk. induction Hpre as [|x r Hx _ IH].
  - simpl. by rewrite Hm; simpl; rewrite Hk.
  - simpl. destruct (parent_of x) as [q|]; [|done].
    simpl. by rewrite (Hx q eq_refl).
Qed.

(** C5: the candidate of the regex locator is the enclosing node of the
    first match of the item-label pattern that is neither a link nor
    inside a link and whose normalized text is shorter than 100
    characters; a link occurrence is never accepted; and when no match
    passes both filters the locator returns
    [(None, "Regex: Header not found")].  The matches are all the strings
    of the document that the pattern matches, in document order, each
    with the tag that holds it; so when the occurrences before one whose
    enclosing node is accepted are all in links, or long, that node is the
    candidate. *)
Theorem regex_candidate_is_first_accepted nfkc soup :
  let matches := find_all_string item_1a_pattern soup in
  List.map (λ m, here (pos_of m)) matches
  = List.filter (pattern_matches item_1a_pattern) (descendants soup)
  ∧ Forall (λ m, matched_string item_1a_pattern m ∧ child_of m) matches
  ∧ regex_candidate nfkc soup
    = head (List.filter (accepts nfkc) (omap parent_of matches))
  ∧ (∀ pre m post parent,
       matches = pre ++ m :: post →
       Forall (λ x, ∀ q, parent_of x = Some q → accepts nfkc q = false) pre →
       parent_of m = Some parent → accepts nfkc parent = true →
       regex_candidate nfkc soup = Some parent)
  ∧ match regex_candidate nfkc soup with
    | Some parent =>
        has_name "a" (here (pos_of parent)) = false
        ∧ has_parent_a parent = false
        ∧ (length (clean_text nfkc (get_text (here (pos_of parent)))) < 100)%nat
        ∧ ∃ m, m ∈ matches ∧ parent_of m = Some parent
    | None =>
        Forall (λ parent, accepts nfkc parent = false) (omap parent_of matches)
        ∧ extract_via_regex nfkc soup = (None, u "Regex: Header not found")
    end.
Proof.
  simpl. split; [apply find_all_string_nodes|].
  split; [apply find_all_string_matched|].
  assert (regex_candidate nfkc soup
          = head (List.filter (accepts nfkc)
                    (omap parent_of (find_all_string item_1a_pattern soup))))
    as Hspec by apply pick_candidate_spec.
  split; [done|]. split.
  { intros pre m post parent Hsplit Hpre Hm Hk.
    rewrite Hspec, Hsplit. by apply first_accepted_after. }
  unfold extract_via_regex.
  destruct (regex_candidate nfkc soup) as [parent|] eqn:E.
  - symmetry in Hspec.
    apply first_accepted_parent in Hspec as [Hacc Hm].
    unfold accepts in Hacc. apply andb_prop in Hacc as [Hlink Hlen].
    apply negb_true_iff, orb_false_elim in Hlink as [H1 H2].
    by apply Nat.ltb_lt in Hlen.
  - split; [|done]. by apply none_accepted.
Qed.

(** C5 at [two_header_document]: the header occurs in a TOC link and then
    on its own in a [b] tag; the two strings are the matches, the first is
    refused for its link, and the candidate is the [b] tag. *)
Lemma regex_candidate_is_first_accepted_witness :
  ∃ m1 m2 parent,
    find_all_string item_1a_pattern two_header_document = [m1; m2]
    ∧ here (pos_of m1) = tx "Item 1A. Risk Factors"
    ∧ here (pos_of m2) = tx "ITEM 1A.  RISK FACTORS"
    ∧ (∀ q, parent_of m1 = Some q → has_name "a" (here (pos_of q)) = true)
    ∧ parent_of m2 = Some parent
    ∧ here (pos_of parent) = el "b" [] [tx "ITEM 1A.  RISK FACTORS"]
    ∧ regex_candidate nfkc_spaces two_header_document = Some parent.
Proof.
  destruct (regex_candidate_is_first_accepted nfkc_spaces two_header_document)
    as (_ & _ & _ & Hfirst & _).
  do 3 eexists. split; [vm_compute; reflexivity|].
  split; [reflexivity|]. split; [reflexivity|].
  split; [intros q [= <-]; vm_compute; reflexivity|].
  split; [reflexivity|]. split; [vm_compute; reflexivity|].
  eapply (Hfirst [_]); [vm_compute; reflexivity| |reflexivity
                       |vm_compute; reflexivity].
  constructor; [|constructor]. intros q [= <-]. vm_compute. reflexivity.
Defined.

(** In [two_header_document] both occurrences match, the one in the link
    is passed over, and the candidate is the [b] tag of the header. *)
Example two_header_candidate :
  length (find_all_string item_1a_pattern two_header_document) = 2%nat
  ∧ (λ c, here (pos_of c)) <$> regex_candidate nfkc_spaces two_header_document
    = Some (el "b" [] [tx "ITEM 1A.  RISK FACTORS"])
  ∧ extract_via_regex nfkc_spaces two_header_document
    = (Some (u "Our business faces risks."), u "Regex extraction").
Proof. repeat split; vm_compute; reflexivity. Qed.

(** ** The driver *)

Lemma has_nonspace_app s t :
  has_nonspace (s ++ t) = has_nonspace s || has_nonspace t.
Proof. apply existsb_app. Qed.

Lemma has_nonspace_rev s : has_nonspace (rev s) = has_nonspace s.
Proof.
  induction s as [|c r IH]; [done|].
  simpl. rewrite has_nonspace_app, IH. simpl.
  rewrite orb_false_r. apply orb_comm.
Qed.

Lemma has_nonspace_lstrip s : has_nonspace (lstrip s) = has_nonspace s.
Proof.
  induction s as [|c r IH]; [done|].
  simpl. destruct (isspace c) eqn:E; [by rewrite IH|]. simpl. by rewrite E.
Qed.

Lemma has_nonspace_strip s : has_nonspace (strip s) = has_nonspace s.
Proof.
  unfold strip, rstrip.
  by rewrite has_nonspace_rev, has_nonspace_lstrip, has_nonspace_rev,
    has_nonspace_lstrip.
Qed.

Lemma has_nonspace_sub_ws b s : has_nonspace (sub_ws_from b s) = has_nonspace s.
Proof.
  revert b. induction s as [|c r IH]; intros b; [done|].
  simpl. destruct (isspace c) eqn:E; simpl.
  - destruct b; [apply IH|]. simpl. apply IH.
  - by rewrite E.
Qed.












Lemma nfkc_spaces_ascii x : Forall (λ c, c < 128) x → nfkc_spaces x = x.
Proof.
  induction 1 as [|c r Hc _ IH]; [done|].
  unfold nfkc_spaces in *. simpl. rewrite IH. f_equal.
  destruct ((c =? 160) || ((8192 <=? c) && (c <=? 8202))
            || (c =? 8239) || (c =? 8287) || (c =? 12288)) eqn:E; [|done].
  rewrite !orb_true_iff, !andb_true_iff, !N.eqb_eq, !N.leb_le in E. lia.
Qed.


Section Driver.
Context (nfkc : text → text) (read_html : text → text + node).

(** Two more facts of Unicode normalization: ASCII text is normalized,
    and normalizing does not turn text with a character that is not
    whitespace into whitespace. *)
Hypothesis nfkc_ascii : ∀ x, Forall (λ c, c < 128) x → nfkc x = x.
Hypothesis nfkc_nonspace :
  ∀ x, has_nonspace x = true → has_nonspace (nfkc x) = true.

Lemma clean_text_sentinel : clean_text nfkc SENTINEL = SENTINEL.
Proof.
  unfold clean_text. rewrite nfkc_ascii; [vm_compute; reflexivity|].
  apply Forall_forall. intros c Hc. apply list_elem_of_In in Hc.
  vm_compute in Hc.
  repeat (destruct Hc as [<-|Hc]; [reflexivity|]). destruct Hc.
Qed.


(** [process_filing] once the file is there and its tree is built. *)
Lemma process_filing_parsed r fs rel_path data soup :
  saved_path r = Some rel_path → rel_path ≠ [] →
  fs !! rel_path = Some data → read_html data = inr soup →
  process_filing nfkc read_html r fs =
  match locate nfkc soup with
  | (Some (c :: t), method) =>
      (u "Extracted" ++ u " (" ++ method ++ u ")",
       <[out_file (accessionNumber r) := clean_text nfkc (c :: t)]> fs)
  | (_, method) =>
      (u "Not Found" ++ u " (" ++ method ++ u ")",
       <[out_file (accessionNumber r) := clean_text nfkc SENTINEL]> fs)
  end.
Proof.
  intros Hpath Hne Hfile Hread. unfold process_filing.
  rewrite Hpath. destruct rel_path as [|c p]; [done|].
  rewrite Hfile, Hread.
  by destruct (locate nfkc soup) as [[[|c' t]|] method].
Qed.



(** C10: when the TOC link points to an id that no node of the document
    has as the value of its [id] attribute, the TOC locator returns a null
    span with the label
    [TOC extraction (End anchor: ...)], which is neither of its two
    failure labels, and the driver goes on with the regex locator. *)
Theorem dangling_toc_target_falls_back soup link start_id :
  toc_link soup = Some link →
  internal_target (get (here link) "href") = Some start_id →
  Forall (λ n, get n "id" ≠ Some start_id) (descendants soup) →
  let end_id := toc_end_id (here link) start_id (find_all_a_href soup) in
  extract_via_toc soup
  = (None, u "TOC extraction (End anchor: " ++ show_id end_id ++ u ")")
  ∧ snd (extract_via_toc soup) ≠ u "No TOC link found"
  ∧ snd (extract_via_toc soup) ≠ u "TOC link has no internal href"
  ∧ locate nfkc soup = extract_via_regex nfkc soup
  ∧ ∀ r fs rel_path data,
      saved_path r = Some rel_path → rel_path ≠ [] →
      fs !! rel_path = Some data → read_html data = inr soup →
      process_filing nfkc read_html r fs =
      match extract_via_regex nfkc soup with
      | (Some (c :: t), method) =>
          (u "Extracted (" ++ method ++ u ")",
           <[out_file (accessionNumber r) := clean_text nfkc (c :: t)]> fs)
      | (_, method) =>
          (u "Not Found (" ++ method ++ u ")",
           <[out_file (accessionNumber r) := clean_text nfkc SENTINEL]> fs)
      end.
Proof.
  intros Hlink Hhref Hid. simpl.
  assert (extract_via_toc soup
          = (None, toc_label (toc_end_id (here link) start_id
                                (find_all_a_href soup)))) as Htoc.
  { unfold extract_via_toc. rewrite Hlink, Hhref.
    unfold extract_content_between_anchors.
    by rewrite (proj2 (find_id_missing start_id soup) Hid). }
  assert (locate nfkc soup = extract_via_regex nfkc soup) as Hloc.
  { unfold locate. by rewrite Htoc. }
  split; [done|]. rewrite Htoc. simpl.
  split; [apply toc_label_not_failure|].
  split; [apply toc_label_not_failure|].
  split; [done|].
  intros r fs rel_path data Hpath Hne Hfile Hread.
  rewrite (process_filing_parsed _ _ _ _ _ Hpath Hne Hfile Hread), Hloc.
  by destruct (extract_via_regex nfkc soup) as [[[|c' t]|] method].
Qed.
End Driver.




(** C10 at [dangling_toc_document]: the link points to [rf], which no
    element carries. *)
Lemma dangling_toc_target_falls_back_witness :
  ∃ link, toc_link dangling_toc_document = Some link
    ∧ internal_target (get (here link) "href") = Some (u "rf")
    ∧ extract_via_toc dangling_toc_document
      = (None, u "TOC extraction (End anchor: other)")
    ∧ locate nfkc_spaces dangling_toc_document
      = extract_via_regex nfkc_spaces dangling_toc_document.
Proof.
  eexists. split; [vm_compute; reflexivity|]. split; [vm_compute; reflexivity|].
  edestruct (dangling_toc_target_falls_back nfkc_spaces
               (λ _, inr dangling_toc_document) dangling_toc_document)
    as (Htoc & _ & _ & Hloc & _);
    [vm_compute; reflexivity|vm_compute; reflexivity
    |apply find_id_missing; vm_compute; reflexivity|].
  split; [|exact Hloc]. rewrite Htoc. vm_compute. reflexivity.
Defined.

(** In [hash_only_document] the link is [href="#"]: the start id is empty,
    no element has the empty id, and the TOC locator returns a null span
    with its label, not the text after the first element without an id. *)
Example hash_only_document_outcome :
  extract_via_toc hash_only_document
  = (None, u "TOC extraction (End anchor: None)")
  ∧ process_filing nfkc_spaces (λ _, inr hash_only_document) aapl_row aapl_fs
    = (u "Extracted (Regex extraction)",
       <[u "sec_10q/risk_factors/0000320193-22-000007.txt"
         := u "Our business faces risks."]> aapl_fs).
Proof. split; vm_compute; reflexivity. Qed.

(** In [dangling_toc_document] the regex locator then finds the section. *)
Example dangling_toc_document_outcome :
  process_filing nfkc_spaces (λ _, inr dangling_toc_document) aapl_row aapl_fs
  = (u "Extracted (Regex extraction)",
     <[u "sec_10q/risk_factors/0000320193-22-000007.txt"
       := u "Our business faces risks."]> aapl_fs).
Proof. vm_compute. reflexivity. Qed.


(** * Further properties *)

(** ** The shape of normalized text *)

Lemma single_spaced_only_spaces b s :
  single_spaced b s = true → Forall (λ c, isspace c = true → c = SPACE) s.
Proof.
  revert b. induction s as [|c r IH]; intros b; [constructor|].
  simpl. destruct (isspace c) eqn:E.
  - intros [[_ Hc]%andb_prop Hr]%andb_prop. apply N.eqb_eq in Hc.
    constructor; [done|]. by apply (IH true).
  - intros Hr. constructor; [by rewrite E|]. by apply (IH false).
Qed.

Lemma single_spaced_no_pair b s i x y :
  single_spaced b s = true →
  s !! i = Some x → s !! S i = Some y → isspace x = true → isspace y = false.
Proof.
  revert b i. induction s as [|c r IH]; intros b i; [done|].
  simpl. destruct i as [|i]; simpl.
  - intros H [= ->] Hy Hx. rewrite Hx in H.
    apply andb_prop in H as [_ Hr].
    destruct r as [|d r']; [done|]. simpl in Hy. injection Hy as ->.
    simpl in Hr. by destruct (isspace y).
  - intros H. apply (IH (isspace c) i).
    destruct (isspace c); [by apply andb_prop in H as [_ Hr]|done].
Qed.

Lemma clean_text_single_spaced nfkc x :
  single_spaced false (clean_text nfkc x) = true.
Proof.
  unfold clean_text, strip.
  apply single_spaced_rstrip, (single_spaced_lstrip false), sub_ws_single_spaced.
Qed.

Lemma clean_text_stripped nfkc x :
  lstrip (clean_text nfkc x) = clean_text nfkc x
  ∧ rstrip (clean_text nfkc x) = clean_text nfkc x.
Proof.
  unfold clean_text, strip. split.
  - apply lstrip_rstrip_fixed, lstrip_idem.
  - apply rstrip_idem.
Qed.

(** X1: in the text that [clean_text] returns every whitespace character
    is a plain space, no two whitespace characters are adjacent, and there
    is no whitespace at either end. *)
Theorem clean_text_shape nfkc x :
  let out := clean_text nfkc x in
  Forall (λ c, isspace c = true → c = SPACE) out
  ∧ (∀ i a b, out !! i = Some a → out !! S i = Some b →
       isspace a = true → isspace b = false)
  ∧ lstrip out = out ∧ rstrip out = out.
Proof.
  simpl. pose proof (clean_text_single_spaced nfkc x) as H.
  split; [by apply (single_spaced_only_spaces false)|].
  split; [|apply clean_text_stripped].
  intros i a b. by apply (single_spaced_no_pair false).
Qed.

Lemma nonspace_chars_app s t :
  nonspace_chars (s ++ t) = nonspace_chars s ++ nonspace_chars t.
Proof. apply List.filter_app. Qed.

Lemma nonspace_chars_rev s : nonspace_chars (rev s) = rev (nonspace_chars s).
Proof.
  induction s as [|c r IH]; [done|].
  simpl. rewrite nonspace_chars_app, IH. simpl.
  destruct (isspace c); simpl; [by rewrite app_nil_r|done].
Qed.

Lemma nonspace_chars_lstrip s : nonspace_chars (lstrip s) = nonspace_chars s.
Proof.
  induction s as [|c r IH]; [done|].
  simpl. destruct (isspace c) eqn:E; simpl; [done|]. by rewrite E.
Qed.

Lemma nonspace_chars_strip s : nonspace_chars (strip s) = nonspace_chars s.
Proof.
  unfold strip, rstrip.
  by rewrite nonspace_chars_rev, nonspace_chars_lstrip, nonspace_chars_rev,
    rev_involutive, nonspace_chars_lstrip.
Qed.

Lemma nonspace_chars_sub_ws b s :
  nonspace_chars (sub_ws_from b s) = nonspace_chars s.
Proof.
  revert b. induction s as [|c r IH]; intros b; [done|].
  simpl. destruct (isspace c) eqn:E; simpl.
  - destruct b; [apply IH|]. simpl. apply IH.
  - rewrite E. simpl. by rewrite IH.
Qed.

(** X2: [clean_text] changes whitespace only: the characters of its result
    that are not whitespace are those of the NFKC-normalized input, in the
    same order. *)
Theorem clean_text_keeps_nonspace nfkc x :
  nonspace_chars (clean_text nfkc x) = nonspace_chars (nfkc x).
Proof.
  unfold clean_text, re_sub_ws.
  by rewrite nonspace_chars_strip, nonspace_chars_sub_ws.
Qed.

(** X3: [clean_text] returns the empty string exactly when the
    NFKC-normalized input has nothing but whitespace. *)
Theorem clean_text_empty_iff nfkc x :
  clean_text nfkc x = [] ↔ has_nonspace (nfkc x) = false.
Proof.
  assert (has_nonspace (clean_text nfkc x) = has_nonspace (nfkc x)) as Hsame.
  { unfold clean_text, re_sub_ws.
    by rewrite has_nonspace_strip, has_nonspace_sub_ws. }
  split.
  - intros H. by rewrite <- Hsame, H.
  - intros H. rewrite <- Hsame in H.
    destruct (clean_text_stripped nfkc x) as [Hl _].
    destruct (lstrip_fixed_head _ Hl) as [E|(c & r & E & Hc)]; [done|].
    rewrite E in H. simpl in H. by rewrite Hc in H.
Qed.

(** ** More on the two walks *)

Lemma before_stop_ext (f g : node → bool) l :
  (∀ n, f n = g n) → before_stop f l = before_stop g l.
Proof.
  intros H. induction l as [|n r IH]; [done|]. simpl. by rewrite H, IH.
Qed.

(** X4: an end id that is the empty string stops nothing: the extractor
    walks as if no end id were given.  The TOC locator passes the empty
    end id when the first link after the matched one whose href is
    internal and leads elsewhere than the start id is [href="#"], which
    needs a start id that is not empty itself; it then returns what the
    extractor returns without an end id, labelled
    [TOC extraction (End anchor: )]. *)
Theorem empty_end_id_bounds_nothing soup start_id :
  extract_content_between_anchors soup start_id (Some [])
  = extract_content_between_anchors soup start_id None
  ∧ ∀ link,
      toc_link soup = Some link →
      internal_target (get (here link) "href") = Some start_id →
      first_distinct_internal start_id (next_elements link) = Some [] →
      start_id ≠ []
      ∧ toc_end_id (here link) start_id (find_all_a_href soup) = Some []
      ∧ extract_via_toc soup
        = (extract_content_between_anchors soup start_id None,
           u "TOC extraction (End anchor: )").
Proof.
  assert (extract_content_between_anchors soup start_id (Some [])
          = extract_content_between_anchors soup start_id None) as Hsame.
  { rewrite !between_result. destruct (find_id start_id soup) as [st|]; [|done].
    simpl. by rewrite (before_stop_ext (hits_end (Some [])) (hits_end None)). }
  split; [done|]. intros link Hlink Hhref Hfirst.
  pose proof (toc_end_id_first_distinct soup link start_id Hlink Hhref)
    as Hend.
  rewrite Hfirst in Hend.
  split.
  { intros ->. by apply (first_distinct_internal_distinct [] (next_elements link)). }
  split; [done|].
  unfold extract_via_toc. by rewrite Hlink, Hhref, Hend, Hsame.
Qed.

(** X4 at [hash_link_document]: the link after the matched one is
    [href="#"], and the element with the empty id does not end the
    section. *)
Lemma empty_end_id_bounds_nothing_witness :
  extract_via_toc hash_link_document
  = (Some (u "Our business faces risks. Item 2."),
     u "TOC extraction (End anchor: )").
Proof.
  edestruct (proj2 (empty_end_id_bounds_nothing hash_link_document (u "rf")))
    as (_ & _ & Htoc);
    [vm_compute; reflexivity|vm_compute; reflexivity|vm_compute; reflexivity|].
  rewrite Htoc. vm_compute. reflexivity.
Defined.

Lemma join_space_prefix (a b : list text) :
  join_space a `prefix_of` join_space (a ++ b).
Proof.
  induction a as [|p [|q r] IH].
  - apply prefix_nil.
  - simpl. destruct b; [done|]. by apply prefix_app_r.
  - change (join_space (p :: q :: r)) with (p ++ SPACE :: join_space (q :: r)).
    change (join_space ((p :: q :: r) ++ b))
      with (p ++ SPACE :: join_space ((q :: r) ++ b)).
    apply prefix_app, prefix_cons, IH.
Qed.

(** X5: an end anchor only cuts the section short: what the extractor
    returns with an end id is a prefix of what it returns without one. *)
Theorem end_anchor_only_truncates soup start_id end_id t :
  extract_content_between_anchors soup start_id end_id = Some t →
  ∃ t', extract_content_between_anchors soup start_id None = Some t'
        ∧ t `prefix_of` t'.
Proof.
  rewrite !between_result. destruct (find_id start_id soup) as [st|]; [|done].
  simpl. intros [= <-]. eexists. split; [done|].
  rewrite (before_stop_never (hits_end None)) by (by apply Forall_forall).
  destruct (before_stop_sublist (hits_end end_id)
              (take max_elements (tags_after st))) as [rest Hr].
  rewrite Hr at 2. rewrite flat_map_app. apply join_space_prefix.
Qed.

(** X5 at [toc_document], whose section ends at [unregisteredsales]. *)
Lemma end_anchor_only_truncates_witness :
  ∃ t', extract_content_between_anchors toc_document (u "rf") None = Some t'
        ∧ u "Our business faces risks including X, Y, Z." `prefix_of` t'.
Proof.
  apply (end_anchor_only_truncates toc_document (u "rf")
           (Some (u "unregisteredsales"))).
  vm_compute. reflexivity.
Defined.

Lemma regex_result nfkc soup :
  extract_via_regex nfkc soup =
  match regex_candidate nfkc soup with
  | None => (None, u "Regex: Header not found")
  | Some candidate =>
      (Some (join_space
               (flat_map regex_step
                  (before_stop regex_stop
                     (take regex_limit (tags_after (pos_of candidate)))))),
       u "Regex extraction")
  end.
Proof.
  unfold extract_via_regex. destruct (regex_candidate nfkc soup); [|done].
  by rewrite regex_loop_spec.
Qed.


(** When the matched string is a child of the document itself, the
    candidate is the document object, which nothing follows: the locator
    returns the empty string. *)
Example root_string_document_extraction :
  (∃ candidate, regex_candidate nfkc_spaces root_string_document = Some candidate
     ∧ here (pos_of candidate) = root_string_document
     ∧ tags_after (pos_of candidate) = [])
  ∧ extract_via_regex nfkc_spaces root_string_document
    = (Some [], u "Regex extraction").
Proof.
  split; [eexists; split; [vm_compute; reflexivity|split; reflexivity]|].
  vm_compute. reflexivity.
Qed.

(** *** The text of a locator has no whitespace at its ends *)

Lemma lstrip_app_fixed a b : a ≠ [] → lstrip a = a → lstrip (a ++ b) = a ++ b.
Proof.
  intros Hne H. destruct (lstrip_fixed_head a H) as [->|(c & r & -> & Hc)]; [done|].
  simpl. by rewrite Hc.
Qed.

Lemma rstrip_fixed_rev s : rstrip s = s → lstrip (rev s) = rev s.
Proof.
  unfold rstrip. intros H. apply (f_equal (@rev N)) in H.
  by rewrite rev_involutive in H.
Qed.

Lemma trimmed_around a m b : trimmed a → trimmed b → trimmed (a ++ m ++ b).
Proof.
  intros (Ha & Hla & _) (Hb & _ & Hrb). split; [by destruct a|]. split.
  - by apply lstrip_app_fixed.
  - unfold rstrip. rewrite !rev_app_distr, <- app_assoc.
    rewrite lstrip_app_fixed.
    + by rewrite !rev_app_distr, !rev_involutive, <- app_assoc.
    + intros E. apply (f_equal (@rev N)) in E. by rewrite rev_involutive in E.
    + by apply rstrip_fixed_rev.
Qed.

Lemma strip_trimmed s : strip s ≠ [] → trimmed (strip s).
Proof.
  intros H. split; [done|]. unfold strip. split.
  - apply lstrip_rstrip_fixed, lstrip_idem.
  - apply rstrip_idem.
Qed.

Lemma concat_trimmed (l : list text) :
  Forall trimmed l → l ≠ [] → trimmed (concat l).
Proof.
  induction 1 as [|t r Ht Hr IH]; [done|]. intros _. simpl.
  destruct r as [|t' r']; [by rewrite app_nil_r|].
  apply (trimmed_around t [] (concat (t' :: r'))); [done|]. by apply IH.
Qed.

Lemma join_space_trimmed (l : list text) :
  Forall trimmed l → l ≠ [] → trimmed (join_space l).
Proof.
  induction 1 as [|t r Ht Hr IH]; [done|]. intros _.
  destruct r as [|t' r']; [done|].
  change (join_space (t :: t' :: r'))
    with (t ++ [SPACE] ++ join_space (t' :: r')).
  apply trimmed_around; [done|]. by apply IH.
Qed.

Lemma get_text_strip_trimmed n : get_text_strip n ≠ [] → trimmed (get_text_strip n).
Proof.
  unfold get_text_strip, join_empty. intros Hne.
  apply concat_trimmed; [|by intros E; rewrite E in Hne].
  clear Hne. induction (all_strings n) as [|s r IH]; [constructor|].
  simpl. destruct (strip s) eqn:E; simpl; [done|].
  constructor; [|done]. rewrite <- E. apply strip_trimmed. by rewrite E.
Qed.

Lemma step_text_trimmed n : Forall trimmed (step_text n).
Proof.
  destruct n as [k s|name attrs cs]; simpl.
  - destruct (strip s) eqn:E; simpl; [constructor|].
    constructor; [|constructor]. rewrite <- E. apply strip_trimmed. by rewrite E.
  - destruct (nonempty name); [|constructor].
    destruct (get_text_strip (Tag name attrs cs)) eqn:E; simpl; [constructor|].
    constructor; [|constructor]. rewrite <- E.
    apply get_text_strip_trimmed. by rewrite E.
Qed.

Lemma regex_step_trimmed n : Forall trimmed (regex_step n).
Proof.
  unfold regex_step. destruct (get_text_strip n) eqn:E; simpl; [constructor|].
  constructor; [|constructor]. rewrite <- E.
  apply get_text_strip_trimmed. by rewrite E.
Qed.

Lemma flat_map_trimmed (f : node → list text) l :
  (∀ n, Forall trimmed (f n)) → Forall trimmed (flat_map f l).
Proof.
  intros Hf. induction l as [|n r IH]; [constructor|].
  simpl. apply Forall_app. by split.
Qed.

Lemma joined_stripped (l : list text) :
  Forall trimmed l → strip (join_space l) = join_space l.
Proof.
  intros H. destruct l as [|t r]; [done|].
  destruct (join_space_trimmed (t :: r) H) as (_ & Hl & Hr); [done|].
  unfold strip. by rewrite Hl.
Qed.

Lemma toc_text_stripped soup t method :
  extract_via_toc soup = (Some t, method) → strip t = t.
Proof.
  unfold extract_via_toc.
  destruct (toc_link soup) as [link|]; [|done].
  destruct (internal_target (get (here link) "href")) as [start_id|]; [|done].
  rewrite between_result. destruct (find_id start_id soup) as [st|]; [|done].
  simpl. intros [= <- _]. apply joined_stripped, flat_map_trimmed.
  apply step_text_trimmed.
Qed.

Lemma regex_text_stripped nfkc soup t method :
  extract_via_regex nfkc soup = (Some t, method) → strip t = t.
Proof.
  rewrite regex_result.
  destruct (regex_candidate nfkc soup); [|done].
  intros [= <- _]. apply joined_stripped, flat_map_trimmed.
  apply regex_step_trimmed.
Qed.

(** X7: the span that the locators hand to the driver, from either
    strategy, has no whitespace at either end: [strip] leaves it as it
    is. *)
Theorem located_text_is_stripped nfkc soup t method :
  locate nfkc soup = (Some t, method) → strip t = t.
Proof.
  unfold locate. destruct (extract_via_toc soup) as [text m] eqn:E.
  destruct (truthy text); [|apply regex_text_stripped].
  intros [= -> ->]. by apply (toc_text_stripped soup t method).
Qed.

(** X7 at [toc_document], where the TOC locator gives the span. *)
Lemma located_text_is_stripped_witness :
  strip (u "Our business faces risks including X, Y, Z.")
  = u "Our business faces risks including X, Y, Z.".
Proof.
  apply (located_text_is_stripped nfkc_spaces toc_document _
           (u "TOC extraction (End anchor: unregisteredsales)")).
  vm_compute. reflexivity.
Defined.

(** ** Documents that do not mention the section *)

Lemma forest_elem x cs :
  x ∈ forest cs ↔ ∃ c, c ∈ cs ∧ (x = c ∨ x ∈ descendants c).
Proof.
  induction cs as [|c r IH]; simpl.
  - split; [by intros ?%elem_of_nil|]. by intros (c & ?%elem_of_nil & _).
  - rewrite elem_of_cons, elem_of_app, IH. split.
    + intros [->|[H|(c' & Hc' & H)]].
      * exists c. split; [left|by left].
      * exists c. split; [left|by right].
      * exists c'. split; [by right|done].
    + intros (c' & [->|Hc']%elem_of_cons & H).
      * destruct H; [by left|right; by left].
      * right. right. by exists c'.
Qed.

Lemma descendants_tag name attrs cs : descendants (Tag name attrs cs) = forest cs.
Proof. reflexivity. Qed.

(** What is below a descendant is below the node. *)
Lemma descendants_trans m n x :
  n ∈ descendants m → x ∈ descendants n → x ∈ descendants m.
Proof.
  revert n x. induction m as [k s|name attrs cs IH] using node_induction;
    intros n x; [by intros ?%elem_of_nil|].
  rewrite descendants_tag, !forest_elem. intros (c & Hc & Hn) Hx.
  exists c. split; [done|]. right. destruct Hn as [->|Hn]; [done|].
  rewrite Forall_forall in IH. by apply (IH c Hc n x).
Qed.

(** [tag.string] is one of the strings at or below the tag. *)
Lemma string_of_in n s :
  string_of n = Some s → ∃ cls, NavigableString cls s ∈ n :: descendants n.
Proof.
  induction n as [k t|name attrs cs IH] using node_induction.
  - intros [= ->]. exists k. left.
  - destruct cs as [|c [|c' r]]; [done| |done].
    simpl. intros H. apply Forall_cons in IH as [IH _].
    destruct (IH H) as [k Hk]. exists k. right. by rewrite app_nil_r.
Qed.

Lemma no_mention_no_toc_match soup :
  no_mention soup → Forall (λ n, toc_match n = false) (descendants soup).
Proof.
  intros Hno. apply Forall_forall. intros n Hn.
  unfold toc_match. destruct (has_name "a" n); [|done]. simpl.
  destruct (string_of n) as [s|] eqn:E; [|done].
  assert (∃ k, NavigableString k s ∈ descendants soup) as [k Hs].
  { apply string_of_in in E as [k E]. exists k.
    apply elem_of_cons in E as [<-|E]; [done|].
    by apply (descendants_trans soup n). }
  destruct (Hno k s Hs) as [H1 H2]. simpl. by rewrite H1, H2, andb_false_r.
Qed.

Lemma no_mention_no_match soup :
  no_mention soup → find_all_string item_1a_pattern soup = [].
Proof.
  intros Hno. unfold find_all_string.
  assert (Forall (λ e, here (pos_of e) ∈ descendants soup) (soup_elements soup))
    as Hin.
  { apply Forall_forall. intros e He.
    rewrite <- soup_elements_nodes.
    apply list_elem_of_In, (in_map (λ e, here (pos_of e))), list_elem_of_In, He. }
  induction Hin as [|e r He _ IH]; [done|].
  simpl. destruct (here (pos_of e)) as [k s|] eqn:E; [|done].
  destruct (Hno k s He) as [_ H2]. by rewrite H2, andb_false_r.
Qed.

(** ** Substrings of a status line *)

Lemma contains_unfold needle hay :
  contains needle hay =
  startswith needle hay ||
  match hay with
  | [] => false
  | _ :: r => contains needle r
  end.
Proof. by destruct hay. Qed.

Lemma contains_startswith needle hay :
  startswith needle hay = true → contains needle hay = true.
Proof. intros H. by rewrite contains_unfold, H. Qed.

(** A prefix without the first character of the needle hides no match. *)
Lemma contains_skip_prefix h t pre s :
  forallb (λ c, negb (h =? c)) pre = true →
  contains (h :: t) (pre ++ s) = contains (h :: t) s.
Proof.
  induction pre as [|c r IH]; [done|].
  simpl. intros [Hc Hr]%andb_prop. apply negb_true_iff in Hc.
  by rewrite Hc, IH.
Qed.

Lemma startswith_foreign needle s post :
  foreign_to needle post = true →
  needle ≠ [] → startswith needle (s ++ post) = startswith needle s.
Proof.
  revert s. induction needle as [|h t IH]; intros s Hf; [done|]. intros _.
  assert (foreign_to t post = true) as Ht.
  { unfold foreign_to in *. apply forallb_forall. intros c Hc.
    rewrite forallb_forall in Hf. specialize (Hf c Hc). simpl in Hf.
    by apply andb_prop in Hf as [_ Hf]. }
  destruct s as [|x s']; simpl.
  - destruct post as [|c p]; [done|]. simpl in Hf.
    apply andb_prop in Hf as [[Hc _]%andb_prop _]. apply negb_true_iff in Hc.
    by rewrite Hc.
  - destruct t as [|h' t']; [done|]. by rewrite IH.
Qed.

(** A suffix of characters that the needle does not have adds no match. *)
Lemma contains_skip_suffix needle s post :
  foreign_to needle post = true → needle ≠ [] →
  contains needle (s ++ post) = contains needle s.
Proof.
  intros Hf Hne. induction s as [|x s' IH].
  - simpl. destruct needle as [|h t]; [done|]. clear Hne.
    induction post as [|c p IHp]; [done|].
    simpl in Hf. apply andb_prop in Hf as [[Hc _]%andb_prop Hp].
    apply negb_true_iff in Hc.
    rewrite contains_unfold. simpl. rewrite Hc. simpl. by apply IHp.
  - rewrite (contains_unfold needle (x :: s')).
    change ((x :: s') ++ post) with (x :: s' ++ post).
    rewrite (contains_unfold needle (x :: s' ++ post)), IH.
    f_equal. by apply (startswith_foreign needle (x :: s') post).
Qed.

(** ** The summary of [main] *)






Lemma locate_falsy_method nfkc soup text method :
  locate nfkc soup = (text, method) → truthy text = false →
  method = u "Regex: Header not found" ∨ method = u "Regex extraction".
Proof.
  unfold locate. destruct (extract_via_toc soup) as [t m].
  destruct (truthy t) eqn:T; [intros [= <- <-]; congruence|].
  rewrite regex_result.
  destruct (regex_candidate nfkc soup); intros [= <- <-]; auto.
Qed.

Section BatchFacts.
Context (nfkc : text → text) (read_html : text → text + node).
Context (DictReader : text → list row) (writable : text → bool).





(** X9: a record whose file is found and parsed is counted under the
    status of what was written: [Extracted] when the locators left a
    span that is not empty, [Not Found] otherwise. *)
Theorem parsed_record_tally r fs rel_path data soup stats :
  saved_path r = Some rel_path → rel_path ≠ [] →
  fs !! rel_path = Some data → read_html data = inr soup →
  tally (fst (process_filing nfkc read_html r fs)) stats
  = if truthy (fst (locate nfkc soup)) then bump "Extracted" stats
    else bump "Not Found" stats.
Proof.
  intros Hpath Hne Hfile Hread.
  rewrite (process_filing_parsed _ _ _ _ _ _ _ Hpath Hne Hfile Hread).
  destruct (locate nfkc soup) as [text method] eqn:E.
  assert (truthy text = false →
          tally (u "Not Found" ++ u " (" ++ method ++ u ")") stats
          = bump "Not Found" stats) as Hnf.
  { intros T. unfold tally.
    destruct (locate_falsy_method _ _ _ _ E T) as [-> | ->];
      vm_compute (contains _ _); done. }
  destruct text as [[|c t]|]; simpl; [by apply Hnf| |by apply Hnf].
  unfold tally. by rewrite (contains_startswith (u "Extracted")) by reflexivity.
Qed.

(** X10: a record whose file is missing is counted as [Skipped], unless
    its path contains [Extracted] or [Not Found]: the status is looked for
    anywhere in the line, and the line repeats the path. *)
Theorem missing_file_tally r fs rel_path stats :
  saved_path r = Some rel_path → rel_path ≠ [] → fs !! rel_path = None →
  tally (fst (process_filing nfkc read_html r fs)) stats
  = if contains (u "Extracted") rel_path then bump "Extracted" stats
    else if contains (u "Not Found") rel_path then bump "Not Found" stats
    else bump "Skipped" stats.
Proof.
  intros Hpath Hne Hfile. unfold process_filing. rewrite Hpath.
  destruct rel_path as [|c p]; [done|]. rewrite Hfile. simpl fst.
  unfold tally.
  assert (∀ h t, forallb (λ x, negb (h =? x)) (u "Skipped (File not found: ") = true →
            foreign_to (h :: t) (u ")") = true →
            contains (h :: t) (u "Skipped (File not found: " ++ (c :: p) ++ u ")")
            = contains (h :: t) (c :: p)) as Hmid.
  { intros h t Hpre Hpost.
    rewrite contains_skip_prefix by done. by apply contains_skip_suffix. }
  change (u "Extracted") with (69 :: u "xtracted").
  change (u "Not Found") with (78 :: u "ot Found").
  rewrite !Hmid by reflexivity.
  destruct (contains (69 :: u "xtracted") (c :: p)); [done|].
  destruct (contains (78 :: u "ot Found") (c :: p)); [done|].
  by rewrite (contains_startswith (u "Skipped")) by reflexivity.
Qed.
End BatchFacts.


(** X9 at the AAPL record. *)
Lemma parsed_record_tally_witness :
  tally (fst (process_filing nfkc_spaces (λ _, inr toc_document)
                aapl_row aapl_fs)) initial_stats
  = bump "Extracted" initial_stats.
Proof.
  rewrite (parsed_record_tally nfkc_spaces (λ _, inr toc_document) aapl_row
             aapl_fs (u "fixtures/aapl_10q.htm") (u "<html>") toc_document);
    [vm_compute; reflexivity|reflexivity|done|vm_compute; reflexivity
    |reflexivity].
Defined.

(** X10 at a record whose missing file lies in a folder [Extracted]: it
    is counted as extracted. *)
Lemma missing_file_tally_witness :
  tally (fst (process_filing nfkc_spaces (λ _, inr toc_document)
                (Row (u "0000000000-00-000002") (u "GONE")
                   (Some (u "Extracted/gone.htm"))) aapl_fs)) initial_stats
  = bump "Extracted" initial_stats.
Proof.
  rewrite (missing_file_tally nfkc_spaces (λ _, inr toc_document) _ aapl_fs
             (u "Extracted/gone.htm"));
    [vm_compute; reflexivity|reflexivity|done|vm_compute; reflexivity].
Defined.

(** The summary of [main] over [three_rows]: the record with the missing
    file adds to [Extracted]. *)
Example three_rows_summary :
  fst (main nfkc_spaces (λ _, inr toc_document) (λ _, three_rows)
         (λ _, true) batch_fs)
  = Summary {[ u "Extracted" := 2%nat; u "Not Found" := 0%nat;
               u "Skipped" := 1%nat; u "Error" := 0%nat ]}.
Proof. vm_compute. reflexivity. Qed.

(** When the output file of the first record cannot be written, [main]
    ends there, without a summary and without a file written. *)
Example three_rows_write_error :
  main nfkc_spaces (λ _, inr toc_document) (λ _, three_rows)
    (λ _, false) batch_fs
  = (WriteError, batch_fs).
Proof. vm_compute. reflexivity. Qed.

(** ** What [process_filing] leaves alone *)

Section FilingFacts.
Context (nfkc : text → text) (read_html : text → text + node).
Hypothesis nfkc_ascii : ∀ x, Forall (λ c, c < 128) x → nfkc x = x.

(** X11: for a document in which no string contains [Risk Factors] or is
    matched by the item-label pattern, both locators return a null span
    and [process_filing] writes the sentinel with the status line
    [Not Found (Regex: Header not found)]. *)
Theorem unmentioned_section_not_found r fs rel_path data soup :
  no_mention soup →
  saved_path r = Some rel_path → rel_path ≠ [] →
  fs !! rel_path = Some data → read_html data = inr soup →
  extract_via_toc soup = (None, u "No TOC link found")
  ∧ extract_via_regex nfkc soup = (None, u "Regex: Header not found")
  ∧ process_filing nfkc read_html r fs
    = (u "Not Found (Regex: Header not found)",
       <[out_file (accessionNumber r) := SENTINEL]> fs).
Proof.
  intros Hno Hpath Hne Hfile Hread.
  assert (extract_via_toc soup = (None, u "No TOC link found")) as Htoc.
  { unfold extract_via_toc.
    by rewrite (proj2 (toc_link_None soup) (no_mention_no_toc_match soup Hno)). }
  assert (extract_via_regex nfkc soup = (None, u "Regex: Header not found"))
    as Hre.
  { unfold extract_via_regex, regex_candidate.
    by rewrite (no_mention_no_match soup Hno). }
  split; [done|]. split; [done|].
  rewrite (process_filing_parsed _ _ _ _ _ _ _ Hpath Hne Hfile Hread).
  unfold locate. rewrite Htoc. simpl truthy. cbv iota. rewrite Hre.
  by rewrite (clean_text_sentinel nfkc nfkc_ascii).
Qed.
End FilingFacts.

Section FrameFacts.
Context (nfkc : text → text) (read_html : text → text + node).
Context (writable : text → bool).

Lemma process_filing_other_paths r fs p :
  p ≠ out_file (accessionNumber r) →
  snd (process_filing nfkc read_html r fs) !! p = fs !! p.
Proof.
  intros Hp. unfold process_filing.
  destruct (saved_path r) as [[|c q]|]; [done| |done].
  destruct (fs !! (c :: q)) as [data|]; [|done].
  destruct (read_html data) as [e|soup]; [done|].
  destruct (locate nfkc soup) as [[[|c' t]|] method]; simpl;
    by rewrite lookup_insert_ne.
Qed.

Lemma process_filing_keeps r fs p :
  is_Some (fs !! p) → is_Some (snd (process_filing nfkc read_html r fs) !! p).
Proof.
  intros H. destruct (decide (p = out_file (accessionNumber r))) as [->|Hp];
    [|by rewrite process_filing_other_paths].
  unfold process_filing.
  destruct (saved_path r) as [[|c q]|]; [done| |done].
  destruct (fs !! (c :: q)) as [data|]; [|done].
  destruct (read_html data) as [e|soup]; [done|].
  destruct (locate nfkc soup) as [[[|c' t]|] method]; simpl;
    rewrite lookup_insert_eq; by eexists.
Qed.

(** X12: the batch changes output files only: a path that is the output
    file of none of the rows holds after the loop what it held before. *)
Theorem process_rows_frame rows stats fs p :
  Forall (λ r, p ≠ out_file (accessionNumber r)) rows →
  snd (process_rows nfkc read_html writable rows stats fs) !! p = fs !! p.
Proof.
  revert stats fs. induction rows as [|r rest IH]; intros stats fs Hp; [done|].
  apply Forall_cons in Hp as [Hr Hrest]. simpl.
  destruct (write_fails read_html writable r fs); [done|].
  pose proof (process_filing_other_paths r fs p Hr) as Hf.
  destruct (process_filing nfkc read_html r fs) as [res fs1]. simpl in Hf.
  by rewrite IH, Hf.
Qed.

(** X13: processing a record again changes nothing, as long as the
    record's output file is not the file it reads: the second run returns
    the same status line and leaves the file system of the first. *)
Theorem process_filing_again r fs :
  (∀ p, saved_path r = Some p → p ≠ out_file (accessionNumber r)) →
  process_filing nfkc read_html r (snd (process_filing nfkc read_html r fs))
  = process_filing nfkc read_html r fs.
Proof.
  intros Hout. unfold process_filing.
  destruct (saved_path r) as [[|c q]|] eqn:P; [done| |done].
  specialize (Hout (c :: q) eq_refl).
  destruct (fs !! (c :: q)) as [data|] eqn:F; [|simpl; by rewrite F].
  destruct (read_html data) as [e|soup] eqn:R; [simpl; by rewrite F, R|].
  destruct (locate nfkc soup) as [[[|c' t]|] method] eqn:L; simpl;
    rewrite lookup_insert_ne, F, R, L by done; by rewrite insert_insert_eq.
Qed.

(** X14: the batch removes no file: a path that holds a file before the
    loop holds one after it, whatever the rows are. *)
Theorem process_rows_keeps_files rows stats fs p :
  is_Some (fs !! p) →
  is_Some (snd (process_rows nfkc read_html writable rows stats fs) !! p).
Proof.
  revert stats fs. induction rows as [|r rest IH]; intros stats fs Hp; [done|].
  simpl. destruct (write_fails read_html writable r fs); [done|].
  pose proof (process_filing_keeps r fs p Hp) as Hk.
  destruct (process_filing nfkc read_html r fs) as [res fs1]. by apply IH.
Qed.
End FrameFacts.

(** X11 at [unrelated_document]. *)
Lemma unmentioned_section_not_found_witness :
  process_filing nfkc_spaces (λ _, inr unrelated_document) aapl_row aapl_fs
  = (u "Not Found (Regex: Header not found)",
     <[out_file (accessionNumber aapl_row) := SENTINEL]> aapl_fs).
Proof.
  apply (unmentioned_section_not_found nfkc_spaces
           (λ _, inr unrelated_document) nfkc_spaces_ascii aapl_row aapl_fs
           (u "fixtures/aapl_10q.htm") (u "<html>") unrelated_document);
    [|reflexivity|done|vm_compute; reflexivity|reflexivity].
  intros cls s Hs. apply list_elem_of_In in Hs. vm_compute in Hs.
  repeat (destruct Hs as [Hs|Hs];
          [try discriminate Hs; injection Hs as <- <-; split; vm_compute; reflexivity|]).
  destruct Hs.
Defined.

(** X12 at [three_rows]: the index file and the filing are as before. *)
Lemma process_rows_frame_witness :
  snd (process_rows nfkc_spaces (λ _, inr toc_document) (λ _, true)
         three_rows initial_stats batch_fs) !! u "fixtures/aapl_10q.htm"
  = batch_fs !! u "fixtures/aapl_10q.htm".
Proof.
  apply (process_rows_frame nfkc_spaces (λ _, inr toc_document) (λ _, true)).
  repeat constructor; intros E; vm_compute in E; discriminate E.
Defined.

(** X13 at the AAPL record. *)
Lemma process_filing_again_witness :
  process_filing nfkc_spaces (λ _, inr toc_document) aapl_row
    (snd (process_filing nfkc_spaces (λ _, inr toc_document) aapl_row aapl_fs))
  = process_filing nfkc_spaces (λ _, inr toc_document) aapl_row aapl_fs.
Proof.
  apply (process_filing_again nfkc_spaces (λ _, inr toc_document)).
  intros p [= <-] E. vm_compute in E. discriminate E.
Defined.

(** X14 at [three_rows]: the index file is still there. *)
Lemma process_rows_keeps_files_witness :
  is_Some (snd (process_rows nfkc_spaces (λ _, inr toc_document) (λ _, true)
                  three_rows initial_stats batch_fs) !! INPUT_CSV).
Proof.
  apply (process_rows_keeps_files nfkc_spaces (λ _, inr toc_document)
           (λ _, true)).
  vm_compute. by eexists.
Defined.
